(** * Position-based fluids: the host-side simulation driver

    A shallow embedding of [Simulation.cpp] / [Simulation.h] / [AABB.h]:
    the [Simulation] object, its constructors, [reset], [resetBounds],
    [stepBoundsAnimation] and [step], together with the stream of commands
    the object sends to the OpenCL device.

    Conventions.
    - [unsigned int] is a 32-bit counter: a [Z] in [0, 2^32) whose increment
      wraps ([uwrap]).
    - [float] is an abstract scalar type with the operations the source uses
      ([FloatOps]).  Everything structural is proved for every such type.
      Statements that need arithmetic facts are proved for [RealOps], where
      the operations are the exact real ones (rounding is not modelled).
    - Pieces the source only refers to (constants of [Constants.h], the
      [Parameters] struct, [ofRandom], the device's memory) are fields of
      [Env].
    - A method [void Simulation::m()] is a state transformer [M unit]. *)

From Stdlib Require Import ZArith NArith List String Bool Lia.
From Stdlib Require Import QArith Qreals Reals Lra.
Import ListNotations.

Set Implicit Arguments.

(** ** Machine integers *)

Definition UINT_BITS : Z := 32.
Definition UINT_MOD : Z := 2 ^ UINT_BITS.
Definition UINT_MAX : Z := UINT_MOD - 1.

(** Reduction of an integer to the range of [unsigned int]. *)
Definition uwrap (z : Z) : Z := z mod UINT_MOD.

(** [n++] on an [unsigned int]. *)
Definition uincr (n : Z) : Z := uwrap (n + 1).

(** [n % m] on [unsigned int] operands. *)
Definition umod (n m : Z) : Z := n mod m.

(** ** Scalars *)

(** The operations on [float] used by the source.  [flit q] is the value of
    the decimal literal [q]; [of_int] is [static_cast<float>] from an integer
    type; [to_int] is [static_cast<int>]. *)
Class FloatOps (F : Type) : Type := {
  fadd : F -> F -> F;
  fsub : F -> F -> F;
  fmul : F -> F -> F;
  fdiv : F -> F -> F;
  fle : F -> F -> bool;
  flit : Q -> F;
  of_int : Z -> F;
  to_int : F -> Z;
  ffloor : F -> F;
  fceil : F -> F;
  fsin : F -> F;
  M_PI : F;
  ofDegToRad : F -> F
}.

Declare Scope float_scope.
Delimit Scope float_scope with flt.
Infix "+" := fadd : float_scope.
Infix "-" := fsub : float_scope.
Infix "*" := fmul : float_scope.
Infix "/" := fdiv : float_scope.
Notation "x <=? y" := (fle x y) : float_scope.
Notation "x >=? y" := (fle y x) : float_scope.

(** ** Vectors and boxes *)

Record Vec3 (F : Type) : Type := mkVec3 { vx : F; vy : F; vz : F }.

Definition set_vx {F} (v : F) (p : Vec3 F) : Vec3 F := mkVec3 v (vy p) (vz p).

(** Modelled from the spec: [AABB.cpp] is not among the sources; the header
    gives the two corners [minV], [maxV] and accessors returning references
    to them, and the spec describes the bounds as an axis-aligned box given
    by its min and max corner. *)
Record AABB (F : Type) : Type := mkAABB { minV : Vec3 F; maxV : Vec3 F }.

Definition getMinExtent {F} (b : AABB F) : Vec3 F := minV b.
Definition getMaxExtent {F} (b : AABB F) : Vec3 F := maxV b.

(** [b.getMinExtent().x = v] and [b.getMaxExtent().x = v]. *)
Definition setMinExtentX {F} (v : F) (b : AABB F) : AABB F :=
  mkAABB (set_vx v (minV b)) (maxV b).
Definition setMaxExtentX {F} (v : F) (b : AABB F) : AABB F :=
  mkAABB (minV b) (set_vx v (maxV b)).

(** ** Particles *)

(** The three [float4] members of a particle; the fourth lane of each is
    padding that the host code never writes. *)
Record Particle (F : Type) : Type := mkParticle {
  pos : Vec3 F;
  posStar : Vec3 F;
  vel : Vec3 F
}.

Inductive AnimationType : Type := SINE_WAVE | LINEAR_RAMP | COMPRESS.

(** ** Device commands *)

Inductive ElemType : Type :=
| TParameters | TParticle | TFloat | TFloat4 | TInt
| TParticlePosition | TGridCellOffset.

Inductive Arg (F : Type) : Type :=
| ArgBuf (buffer : string)
| ArgInt (n : Z)
| ArgFloat (v : F)
| ArgVec3 (v : Vec3 F).
Arguments ArgBuf {F} buffer.
Arguments ArgInt {F} n.

(** What the object asks of the OpenCL manager, in program order. *)
Inductive Command (F P : Type) : Type :=
| LoadProgram (file : string)
| LoadKernel (kernel : string)
| SetArg (kernel : string) (index : nat) (a : Arg F)
| Run1D (kernel : string) (globalSize : Z)
| InitBuffer (buffer : string) (count : Z) (elem : ElemType)
| InitFromGL (buffer : string) (count : Z)
| WriteParameters (p : P)
| WriteParticles (ps : list (Particle F))
| WriteRenderPos
| NewPrefixSum
| Scan (dst src : string) (n : Z)
| Finish.
Arguments LoadProgram {F P} file.
Arguments LoadKernel {F P} kernel.
Arguments SetArg {F P} kernel index a.
Arguments Run1D {F P} kernel globalSize.
Arguments InitBuffer {F P} buffer count elem.
Arguments InitFromGL {F P} buffer count.
Arguments WriteParameters {F P} p.
Arguments WriteParticles {F P} ps.
Arguments WriteRenderPos {F P}.
Arguments NewPrefixSum {F P}.
Arguments Scan {F P} dst src n.
Arguments Finish {F P}.

(** ** The environment of the class *)

Class Env (F : Type) : Type := {
  (** [Parameters.h]: the struct handed to the kernels. *)
  Parameters : Type;
  particleRadius : Parameters -> F;
  (** [Constants.h]. *)
  SOLVER_ITERATIONS : Z;
  DEFAULT_DT : F;
  PARTICLES_PER_CELL_X : Z;
  PARTICLES_PER_CELL_Y : Z;
  PARTICLES_PER_CELL_Z : Z;
  (** Whether the macro [DRAW_PARTICLES_AS_SPHERES] is defined. *)
  DRAW_PARTICLES_AS_SPHERES : bool;
  (** openFrameworks' [ofRandom(lo, hi)] and the generator it advances. *)
  Rng : Type;
  ofRandom : F -> F -> Rng -> F * Rng;
  (** What a freshly allocated particle slot holds. *)
  uninitParticle : Particle F;
  (** What the device's parameter and particle buffers hold after a given
      history of commands (the kernels live in [kernels/Simulation.cl]). *)
  deviceParameters : list (Command F Parameters) -> Parameters;
  deviceParticles : list (Command F Parameters) -> list (Particle F)
}.

(** ** The simulation object *)

Section Simulation.

Context {F : Type} {FO : FloatOps F} {E : Env F}.

Local Open Scope Z_scope.
Local Open Scope string_scope.
Local Open Scope float_scope.

Local Abbreviation Cmd := (Command F Parameters).

(** The data members of [class Simulation] that the host code reads or
    writes, the device it holds a reference to ([openCL], as the commands
    sent so far, oldest first) and the state of the random generator. *)
Record Simulation : Type := mkSimulation {
  frameNumber : Z;
  numCells : Z;
  doDrawGrid : bool;
  doVisualDebugging : bool;
  animBounds : bool;
  animFrameNumber : Z;
  animType : AnimationType;
  animPeriod : F;
  animAmp : F;
  animBothSides : bool;
  openCL : list Cmd;
  originalBounds : AABB F;
  bounds : AABB F;
  dt : F;
  cellsPerAxis : Vec3 F;
  numParticles : Z;
  parameters : Parameters;
  particles : list (Particle F);
  randState : Rng
}.

(** Assignments to single members. *)
Definition set_frameNumber (v : Z) (s : Simulation) : Simulation :=
  mkSimulation v (numCells s) (doDrawGrid s) (doVisualDebugging s)
    (animBounds s) (animFrameNumber s) (animType s) (animPeriod s) (animAmp s)
    (animBothSides s) (openCL s) (originalBounds s) (bounds s) (dt s)
    (cellsPerAxis s) (numParticles s) (parameters s) (particles s)
    (randState s).
Definition set_numCells (v : Z) (s : Simulation) : Simulation :=
  mkSimulation (frameNumber s) v (doDrawGrid s) (doVisualDebugging s)
    (animBounds s) (animFrameNumber s) (animType s) (animPeriod s) (animAmp s)
    (animBothSides s) (openCL s) (originalBounds s) (bounds s) (dt s)
    (cellsPerAxis s) (numParticles s) (parameters s) (particles s)
    (randState s).
Definition set_doDrawGrid (v : bool) (s : Simulation) : Simulation :=
  mkSimulation (frameNumber s) (numCells s) v (doVisualDebugging s)
    (animBounds s) (animFrameNumber s) (animType s) (animPeriod s) (animAmp s)
    (animBothSides s) (openCL s) (originalBounds s) (bounds s) (dt s)
    (cellsPerAxis s) (numParticles s) (parameters s) (particles s)
    (randState s).
Definition set_doVisualDebugging (v : bool) (s : Simulation) : Simulation :=
  mkSimulation (frameNumber s) (numCells s) (doDrawGrid s) v
    (animBounds s) (animFrameNumber s) (animType s) (animPeriod s) (animAmp s)
    (animBothSides s) (openCL s) (originalBounds s) (bounds s) (dt s)
    (cellsPerAxis s) (numParticles s) (parameters s) (particles s)
    (randState s).
Definition set_animBounds (v : bool) (s : Simulation) : Simulation :=
  mkSimulation (frameNumber s) (numCells s) (doDrawGrid s)
    (doVisualDebugging s) v (animFrameNumber s) (animType s) (animPeriod s)
    (animAmp s) (animBothSides s) (openCL s) (originalBounds s) (bounds s)
    (dt s) (cellsPerAxis s) (numParticles s) (parameters s) (particles s)
    (randState s).
Definition set_animFrameNumber (v : Z) (s : Simulation) : Simulation :=
  mkSimulation (frameNumber s) (numCells s) (doDrawGrid s)
    (doVisualDebugging s) (animBounds s) v (animType s) (animPeriod s)
    (animAmp s) (animBothSides s) (openCL s) (originalBounds s) (bounds s)
    (dt s) (cellsPerAxis s) (numParticles s) (parameters s) (particles s)
    (randState s).
Definition set_animType (v : AnimationType) (s : Simulation) : Simulation :=
  mkSimulation (frameNumber s) (numCells s) (doDrawGrid s)
    (doVisualDebugging s) (animBounds s) (animFrameNumber s) v (animPeriod s)
    (animAmp s) (animBothSides s) (openCL s) (originalBounds s) (bounds s)
    (dt s) (cellsPerAxis s) (numParticles s) (parameters s) (particles s)
    (randState s).
Definition set_animPeriod (v : F) (s : Simulation) : Simulation :=
  mkSimulation (frameNumber s) (numCells s) (doDrawGrid s)
    (doVisualDebugging s) (animBounds s) (animFrameNumber s) (animType s) v
    (animAmp s) (animBothSides s) (openCL s) (originalBounds s) (bounds s)
    (dt s) (cellsPerAxis s) (numParticles s) (parameters s) (particles s)
    (randState s).
Definition set_animAmp (v : F) (s : Simulation) : Simulation :=
  mkSimulation (frameNumber s) (numCells s) (doDrawGrid s)
    (doVisualDebugging s) (animBounds s) (animFrameNumber s) (animType s)
    (animPeriod s) v (animBothSides s) (openCL s) (originalBounds s)
    (bounds s) (dt s) (cellsPerAxis s) (numParticles s) (parameters s)
    (particles s) (randState s).
Definition set_animBothSides (v : bool) (s : Simulation) : Simulation :=
  mkSimulation (frameNumber s) (numCells s) (doDrawGrid s)
    (doVisualDebugging s) (animBounds s) (animFrameNumber s) (animType s)
    (animPeriod s) (animAmp s) v (openCL s) (originalBounds s) (bounds s)
    (dt s) (cellsPerAxis s) (numParticles s) (parameters s) (particles s)
    (randState s).
Definition set_openCL (v : list Cmd) (s : Simulation) : Simulation :=
  mkSimulation (frameNumber s) (numCells s) (doDrawGrid s)
    (doVisualDebugging s) (animBounds s) (animFrameNumber s) (animType s)
    (animPeriod s) (animAmp s) (animBothSides s) v (originalBounds s)
    (bounds s) (dt s) (cellsPerAxis s) (numParticles s) (parameters s)
    (particles s) (randState s).
Definition set_bounds (v : AABB F) (s : Simulation) : Simulation :=
  mkSimulation (frameNumber s) (numCells s) (doDrawGrid s)
    (doVisualDebugging s) (animBounds s) (animFrameNumber s) (animType s)
    (animPeriod s) (animAmp s) (animBothSides s) (openCL s)
    (originalBounds s) v (dt s) (cellsPerAxis s) (numParticles s)
    (parameters s) (particles s) (randState s).
Definition set_cellsPerAxis (v : Vec3 F) (s : Simulation) : Simulation :=
  mkSimulation (frameNumber s) (numCells s) (doDrawGrid s)
    (doVisualDebugging s) (animBounds s) (animFrameNumber s) (animType s)
    (animPeriod s) (animAmp s) (animBothSides s) (openCL s)
    (originalBounds s) (bounds s) (dt s) v (numParticles s) (parameters s)
    (particles s) (randState s).
Definition set_parameters (v : Parameters) (s : Simulation) : Simulation :=
  mkSimulation (frameNumber s) (numCells s) (doDrawGrid s)
    (doVisualDebugging s) (animBounds s) (animFrameNumber s) (animType s)
    (animPeriod s) (animAmp s) (animBothSides s) (openCL s)
    (originalBounds s) (bounds s) (dt s) (cellsPerAxis s) (numParticles s) v
    (particles s) (randState s).
Definition set_particles (v : list (Particle F)) (s : Simulation)
  : Simulation :=
  mkSimulation (frameNumber s) (numCells s) (doDrawGrid s)
    (doVisualDebugging s) (animBounds s) (animFrameNumber s) (animType s)
    (animPeriod s) (animAmp s) (animBothSides s) (openCL s)
    (originalBounds s) (bounds s) (dt s) (cellsPerAxis s) (numParticles s)
    (parameters s) v (randState s).
Definition set_randState (v : Rng) (s : Simulation) : Simulation :=
  mkSimulation (frameNumber s) (numCells s) (doDrawGrid s)
    (doVisualDebugging s) (animBounds s) (animFrameNumber s) (animType s)
    (animPeriod s) (animAmp s) (animBothSides s) (openCL s)
    (originalBounds s) (bounds s) (dt s) (cellsPerAxis s) (numParticles s)
    (parameters s) (particles s) v.

(** ** Methods as state transformers *)

Definition M (A : Type) : Type := Simulation -> A * Simulation.

Definition ret {A} (a : A) : M A := fun s => (a, s).
Definition bind {A B} (m : M A) (k : A -> M B) : M B :=
  fun s => let (a, s') := m s in k a s'.
Definition gets {A} (f : Simulation -> A) : M A := fun s => (f s, s).
Definition modify (f : Simulation -> Simulation) : M unit :=
  fun s => (tt, f s).

(** The state a method leaves behind, and the value it returns. *)
Definition exec {A} (m : M A) (s : Simulation) : Simulation := snd (m s).
Definition eval {A} (m : M A) (s : Simulation) : A := fst (m s).

Notation "x <- m ;; k" := (bind m (fun x => k))
  (at level 61, m at next level, right associativity).
Notation "m ;; k" := (bind m (fun _ => k))
  (at level 61, right associativity).

(** [if (c) { m }] without an [else]. *)
Definition when (c : bool) (m : M unit) : M unit :=
  if c then m else ret tt.

(** [for (int i = 0; i < n; i++) body(i)], the index counting up from
    [i]. *)
Fixpoint for_from (i : Z) (n : nat) (body : Z -> M unit) : M unit :=
  match n with
  | O => ret tt
  | S n' => body i ;; for_from (i + 1)%Z n' body
  end.

Definition for_upto (n : Z) (body : Z -> M unit) : M unit :=
  for_from 0 (Z.to_nat n) body.

(** Sending one command to the device. *)
Definition send (c : Cmd) : M unit :=
  modify (fun s => set_openCL (openCL s ++ [c]) s).

Fixpoint sendAll (cs : list Cmd) : M unit :=
  match cs with
  | [] => ret tt
  | c :: cs' => send c ;; sendAll cs'
  end.

(** [openCL.kernel(k)->setArg(i, a)] and [openCL.kernel(k)->run1D(n)]. *)
Definition setArg (k : string) (i : nat) (a : Arg F) : M unit :=
  send (SetArg k i a).
Definition run1D (k : string) (n : Z) : M unit := send (Run1D k n).

(** One call of [ofRandom]. *)
Definition random (lo hi : F) : M F :=
  fun s => let (v, g) := ofRandom lo hi (randState s) in
           (v, set_randState g s).

(** [a[i] = v] on an array held as a list; the source only indexes inside
    the array, and outside it this function leaves the list alone. *)
Fixpoint set_nth {A} (i : nat) (v : A) (l : list A) : list A :=
  match l, i with
  | [], _ => []
  | _ :: l', O => v :: l'
  | a :: l', S i' => a :: set_nth i' v l'
  end.

(** *** Accessors of the header *)

Definition getFrameNumber : M Z := gets frameNumber.
Definition getBounds : M (AABB F) := gets bounds.
Definition setBounds (b : AABB F) : M unit := modify (set_bounds b).
Definition getCellsPerAxis : M (Vec3 F) := gets cellsPerAxis.
Definition getNumberOfParticles : M Z := gets (fun s => uwrap (numParticles s)).
Definition getNumberOfCells : M Z := gets (fun s => uwrap (numCells s)).
Definition getParameters : M Parameters := gets parameters.

Definition drawGridEnabled : M bool := gets doDrawGrid.
Definition toggleDrawGrid : M unit :=
  modify (fun s => set_doDrawGrid (negb (doDrawGrid s)) s).
Definition isVisualDebuggingEnabled : M bool := gets doVisualDebugging.
Definition toggleVisualDebugging : M unit :=
  modify (fun s => set_doVisualDebugging (negb (doVisualDebugging s)) s).

Definition enableBoundsAnimation : M unit := modify (set_animBounds true).
Definition disableBoundsAnimation : M unit := modify (set_animBounds false).
Definition enableBothSidesAnimation : M unit :=
  modify (set_animBothSides true).
Definition disableBothSidesAnimation : M unit :=
  modify (set_animBothSides false).

Definition setAnimationType (a : AnimationType) : M unit :=
  modify (set_animType a).
Definition setAnimationPeriod (period : F) : M unit :=
  modify (set_animPeriod period).
Definition setAnimationAmp (amp : F) : M unit := modify (set_animAmp amp).

(** *** Host/device transfers *)

(** The host copy of [renderPos] is only used for drawing and is not part
    of the state; reading it back leaves the state as it is. *)
Definition readFromGPU : M unit :=
  modify (fun s => set_parameters (deviceParameters (openCL s)) s) ;;
  modify (fun s => set_particles (deviceParticles (openCL s)) s).

Definition writeToGPU : M unit :=
  p <- gets parameters ;; send (WriteParameters p) ;;
  ps <- gets particles ;; send (WriteParticles ps) ;;
  send WriteRenderPos.

Definition setParameters (p : Parameters) : M unit :=
  modify (set_parameters p) ;;
  p' <- gets parameters ;; send (WriteParameters p').

(** *** Construction *)

Definition findIdealParticleCount : M (Vec3 F) :=
  s <- gets (fun s => s) ;;
  let minExt := getMinExtent (bounds s) in
  let maxExt := getMaxExtent (bounds s) in
  let width := vx maxExt - vx minExt in
  let height := vy maxExt - vy minExt in
  let depth := vz maxExt - vz minExt in
  let radius := particleRadius (parameters s) in
  let subDivX := of_int PARTICLES_PER_CELL_X in
  let subDivY := of_int PARTICLES_PER_CELL_Y in
  let subDivZ := of_int PARTICLES_PER_CELL_Z in
  let cellsX := to_int (fceil ((width / radius) / subDivX)) in
  let cellsY := to_int (fceil ((height / radius) / subDivY)) in
  let cellsZ := to_int (fceil ((depth / radius) / subDivZ)) in
  ret (mkVec3 (of_int cellsX) (of_int cellsY) (of_int cellsZ)).

(** The two arguments handed to [ofRandom] for each coordinate of an
    initial position. *)
Definition posRangeX (p1 p2 : Vec3 F) (radius : F) : F * F :=
  (vx p1 + radius, vx p2 - radius).
Definition posRangeY (p1 p2 : Vec3 F) (radius : F) : F * F :=
  (vy p1 + radius, flit (1 # 4) * (vy p2 - radius)).
Definition posRangeZ (p1 p2 : Vec3 F) (radius : F) : F * F :=
  (vz p1 + radius, vz p2 - radius).

Definition zeroVec : Vec3 F := mkVec3 (flit 0) (flit 0) (flit 0).

(** The body of the loop over the particles in [initializeBuffers]. *)
Definition initParticle (p1 p2 : Vec3 F) (radius : F) (i : Z) : M unit :=
  x <- random (fst (posRangeX p1 p2 radius)) (snd (posRangeX p1 p2 radius)) ;;
  y <- random (fst (posRangeY p1 p2 radius)) (snd (posRangeY p1 p2 radius)) ;;
  z <- random (fst (posRangeZ p1 p2 radius)) (snd (posRangeZ p1 p2 radius)) ;;
  modify (fun s =>
    set_particles
      (set_nth (Z.to_nat i) (mkParticle (mkVec3 x y z) zeroVec zeroVec)
         (particles s)) s).

(** The product of three [int]s; the source relies on it not overflowing. *)
Definition cellProduct (c : Vec3 F) : Z :=
  (to_int (vx c) * to_int (vy c) * to_int (vz c))%Z.

Definition initializeBuffers : M unit :=
  s <- gets (fun s => s) ;;
  let p1 := getMinExtent (bounds s) in
  let p2 := getMaxExtent (bounds s) in
  send (InitBuffer "parameterBuffer" 1 TParameters) ;;
  modify (fun s => set_numCells (cellProduct (cellsPerAxis s)) s) ;;
  n <- gets numParticles ;;
  c <- gets numCells ;;
  send (InitBuffer "particles" n TParticle) ;;
  modify (set_particles (repeat uninitParticle (Z.to_nat n))) ;;
  send (if DRAW_PARTICLES_AS_SPHERES
        then InitBuffer "renderPos" n TFloat4
        else InitFromGL "renderPos" n) ;;
  send (InitBuffer "extForces" n TFloat4) ;;
  send (InitBuffer "particleToCell" n TParticlePosition) ;;
  send (InitBuffer "sortedParticleToCell" n TParticlePosition) ;;
  send (InitBuffer "gridCellOffsets" c TGridCellOffset) ;;
  send (InitBuffer "cellHistogram" c TInt) ;;
  send (InitBuffer "cellPrefixSums" c TInt) ;;
  send (InitBuffer "density" n TFloat) ;;
  send (InitBuffer "lambda" n TFloat) ;;
  send (InitBuffer "curl" n TFloat4) ;;
  send (InitBuffer "posDelta" n TFloat4) ;;
  radius <- gets (fun s => particleRadius (parameters s)) ;;
  for_upto n (initParticle p1 p2 radius).

(** [setArg(0, a0); setArg(1, a1); ...] on one kernel, after loading it
    when [load] is set. *)
Fixpoint bindArgs (k : string) (i : nat) (args : list (Arg F)) : M unit :=
  match args with
  | [] => ret tt
  | a :: args' => setArg k i a ;; bindArgs k (S i) args'
  end.

Definition setupKernel (load : bool) (k : string) (args : list (Arg F))
  : M unit :=
  when load (send (LoadKernel k)) ;; bindArgs k 0 args.

Definition setupKernels (load : bool) : M unit :=
  s <- gets (fun s => s) ;;
  let minExt := ArgVec3 (getMinExtent (bounds s)) in
  let maxExt := ArgVec3 (getMaxExtent (bounds s)) in
  let cellsX := ArgInt (to_int (vx (cellsPerAxis s))) in
  let cellsY := ArgInt (to_int (vy (cellsPerAxis s))) in
  let cellsZ := ArgInt (to_int (vz (cellsPerAxis s))) in
  let np := ArgInt (numParticles s) in
  let nc := ArgInt (numCells s) in
  let grid := [cellsX; cellsY; cellsZ; minExt; maxExt] in
  when load (send (LoadProgram "kernels/Simulation.cl")) ;;
  setupKernel load "debugHistogram"
    [ArgBuf "cellHistogram"; ArgBuf "cellPrefixSums"; nc] ;;
  setupKernel load "debugSorting"
    [ArgBuf "particleToCell"; ArgBuf "sortedParticleToCell"; np] ;;
  setupKernel load "resetParticleQuantities"
    [ArgBuf "particles"; ArgBuf "particleToCell";
     ArgBuf "sortedParticleToCell"; ArgBuf "density"; ArgBuf "lambda";
     ArgBuf "posDelta"] ;;
  setupKernel load "resetCellQuantities"
    [ArgBuf "cellHistogram"; ArgBuf "cellPrefixSums";
     ArgBuf "gridCellOffsets"] ;;
  setupKernel load "predictPosition"
    [ArgBuf "particles"; ArgBuf "extForces"; ArgFloat (dt s)] ;;
  setupKernel load "discretizeParticlePositions"
    ([ArgBuf "particles"; ArgBuf "particleToCell"; ArgBuf "cellHistogram"]
       ++ grid) ;;
  setupKernel load "countSortParticlesByCell"
    [ArgBuf "particleToCell"; ArgBuf "sortedParticleToCell";
     ArgBuf "cellPrefixSums"; np] ;;
  setupKernel load "findParticleBins"
    [ArgBuf "sortedParticleToCell"; ArgBuf "gridCellOffsets"; np] ;;
  setupKernel load "estimateDensity"
    ([ArgBuf "parameterBuffer"; ArgBuf "particles";
      ArgBuf "sortedParticleToCell"; ArgBuf "gridCellOffsets"; np]
       ++ grid ++ [ArgBuf "density"]) ;;
  setupKernel load "computeLambda"
    ([ArgBuf "parameterBuffer"; ArgBuf "particles";
      ArgBuf "sortedParticleToCell"; ArgBuf "gridCellOffsets";
      ArgBuf "density"; np] ++ grid ++ [ArgBuf "lambda"]) ;;
  setupKernel load "computePositionDelta"
    ([ArgBuf "parameterBuffer"; ArgBuf "particles";
      ArgBuf "sortedParticleToCell"; ArgBuf "gridCellOffsets"; np;
      ArgBuf "lambda"] ++ grid ++ [ArgBuf "posDelta"]) ;;
  setupKernel load "updatePositionDelta"
    [ArgBuf "posDelta"; ArgBuf "particles"] ;;
  setupKernel load "resolveCollisions"
    [ArgBuf "parameterBuffer"; ArgBuf "particles"; minExt; maxExt] ;;
  setupKernel load "computeCurl"
    ([ArgBuf "parameterBuffer"; ArgBuf "particles";
      ArgBuf "sortedParticleToCell"; ArgBuf "gridCellOffsets"; np]
       ++ grid ++ [ArgBuf "curl"]) ;;
  setupKernel load "updatePosition"
    ([ArgBuf "parameterBuffer"; ArgFloat (dt s); ArgBuf "particles";
      ArgBuf "sortedParticleToCell"; ArgBuf "gridCellOffsets"; np;
      ArgBuf "curl"] ++ grid ++ [ArgBuf "renderPos"]) ;;
  send NewPrefixSum.

(** [initializeOpenGL] sets up the mesh, the shader and the vertex buffer
    used for drawing; none of them is part of the state. *)
Definition initializeOpenGL : M unit := ret tt.

Definition initialize : M unit :=
  initializeOpenGL ;;
  initializeBuffers ;;
  setupKernels true ;;
  writeToGPU.

Definition newSimulation (cl : list Cmd) (g : Rng) (_bounds : AABB F)
    (_numParticles : Z) (_dt : F) (_cellsPerAxis : Vec3 F)
    (_parameters : Parameters) : Simulation :=
  mkSimulation 0 0 false false false 0 SINE_WAVE (flit 1) (flit 10) false cl
    _bounds _bounds _dt _cellsPerAxis _numParticles _parameters [] g.

(** [Simulation(openCL, bounds, numParticles, parameters)], called when the
    device has received [cl] and the generator is in state [g].  [numCells]
    and [cellsPerAxis] hold no meaningful value until the body assigns
    them. *)
Definition construct (cl : list Cmd) (g : Rng) (_bounds : AABB F)
    (_numParticles : Z) (_parameters : Parameters) : Simulation :=
  exec (c <- findIdealParticleCount ;;
        modify (set_cellsPerAxis c) ;;
        initialize)
       (newSimulation cl g _bounds _numParticles DEFAULT_DT zeroVec
          _parameters).

(** [Simulation(openCL, bounds, numParticles, dt, cellsPerAxis,
    parameters)]. *)
Definition constructWithGrid (cl : list Cmd) (g : Rng) (_bounds : AABB F)
    (_numParticles : Z) (_dt : F) (_cellsPerAxis : Vec3 F)
    (_parameters : Parameters) : Simulation :=
  exec initialize
       (newSimulation cl g _bounds _numParticles _dt _cellsPerAxis
          _parameters).

(** *** Resetting *)

Definition resetBounds : M unit :=
  modify (set_animFrameNumber 0) ;;
  modify (fun s => set_bounds (originalBounds s) s).

Definition reset : M unit :=
  modify (set_frameNumber 0) ;;
  initializeBuffers ;;
  setupKernels false ;;
  resetBounds ;;
  writeToGPU.

(** *** Animating the bounds *)

(** The local variables of [stepBoundsAnimation], as functions of the
    state in which it is entered. *)
Definition origMinX (s : Simulation) : F := vx (getMinExtent (originalBounds s)).
Definition origMaxX (s : Simulation) : F := vx (getMaxExtent (originalBounds s)).
Definition width (s : Simulation) : F := origMaxX s - origMinX s.
Definition limit (s : Simulation) : F := width s * flit (66 # 100).
Definition halfLimit (s : Simulation) : F := limit s * flit (1 # 2).
Definition limitMinX (s : Simulation) : F := origMinX s + halfLimit s.
Definition limitMaxX (s : Simulation) : F := origMaxX s - halfLimit s.

(** [value] in the [SINE_WAVE] branch. *)
Definition theta (s : Simulation) : F :=
  ofDegToRad (of_int (umod (animFrameNumber s) 720)).
Definition sineValue (s : Simulation) : F :=
  animAmp s * fsin (animPeriod s * M_PI * theta s).

(** [value] in the [LINEAR_RAMP] branch. *)
Definition tPeriod (s : Simulation) : F :=
  (of_int (animFrameNumber s) / animPeriod s) * dt s.
Definition rampValue (s : Simulation) : F :=
  flit 2 * animAmp s * (tPeriod s - ffloor (flit (1 # 2) + tPeriod s)).

Definition assignMaxX (v : F) : M unit :=
  modify (fun s => set_bounds (setMaxExtentX v (bounds s)) s).
Definition assignMinX (v : F) : M unit :=
  modify (fun s => set_bounds (setMinExtentX v (bounds s)) s).

Definition stepBoundsAnimation : M unit :=
  s <- gets (fun s => s) ;;
  match animType s with
  | SINE_WAVE =>
      let value := sineValue s in
      assignMaxX (origMaxX s - value) ;;
      when (animBothSides s) (assignMinX (origMinX s + value))
  | LINEAR_RAMP =>
      let value := rampValue s in
      assignMaxX (origMaxX s - value) ;;
      when (animBothSides s) (assignMinX (origMinX s + value))
  | COMPRESS =>
      maxX <- gets (fun s => vx (getMaxExtent (bounds s))) ;;
      when (maxX >=? limitMaxX s) (assignMaxX (maxX - flit (1 # 4))) ;;
      minX <- gets (fun s => vx (getMinExtent (bounds s))) ;;
      when (animBothSides s && (minX <=? limitMinX s))%bool
           (assignMinX (minX + flit (1 # 4)))
  end ;;
  modify (fun s => set_animFrameNumber (uincr (animFrameNumber s)) s).

(** [bounds.getMaxExtent().x] and [bounds.getMinExtent().x]. *)
Definition boundsMaxX (s : Simulation) : F := vx (getMaxExtent (bounds s)).
Definition boundsMinX (s : Simulation) : F := vx (getMinExtent (bounds s)).

(** What one call of [stepBoundsAnimation] takes off the original upper
    X bound. *)
Definition maxXOffset (s : Simulation) : F :=
  origMaxX s - vx (getMaxExtent (bounds (exec stepBoundsAnimation s))).

(** [v] is a value [ofRandom] returned for the range [r]. *)
Definition drawnFrom (r : F * F) (v : F) : Prop :=
  exists g : Rng, v = fst (ofRandom (fst r) (snd r) g).

(** A particle as the loop of [initializeBuffers] leaves it. *)
Definition initialParticle (p1 p2 : Vec3 F) (radius : F) (p : Particle F)
  : Prop :=
  drawnFrom (posRangeX p1 p2 radius) (vx (pos p)) /\
  drawnFrom (posRangeY p1 p2 radius) (vy (pos p)) /\
  drawnFrom (posRangeZ p1 p2 radius) (vz (pos p)) /\
  posStar p = zeroVec /\
  vel p = zeroVec.

(** *** One time step *)

Definition resetQuantities : M unit :=
  n <- gets numParticles ;; run1D "resetParticleQuantities" n ;;
  c <- gets numCells ;; run1D "resetCellQuantities" c.

Definition predictPositions : M unit :=
  n <- gets numParticles ;; run1D "predictPosition" n.

(** Rebinding the two bounds arguments of a kernel to the current bounds,
    then running it over the particles. *)
Definition runWithBounds (k : string) (iMin iMax : nat) : M unit :=
  b <- gets bounds ;;
  setArg k iMin (ArgVec3 (getMinExtent b)) ;;
  b' <- gets bounds ;;
  setArg k iMax (ArgVec3 (getMaxExtent b')) ;;
  n <- gets numParticles ;; run1D k n.

Definition discretizeParticlePositions : M unit :=
  runWithBounds "discretizeParticlePositions" 6 7.

Definition sortParticlesByCell : M unit :=
  c <- gets numCells ;; send (Scan "cellPrefixSums" "cellHistogram" c) ;;
  n <- gets numParticles ;; run1D "countSortParticlesByCell" n ;;
  n' <- gets numParticles ;; run1D "findParticleBins" n'.

Definition findNeighboringParticles : M unit :=
  discretizeParticlePositions ;;
  sortParticlesByCell.

Definition calculateDensity : M unit := runWithBounds "estimateDensity" 8 9.

Definition calculatePositionDelta : M unit :=
  runWithBounds "computeLambda" 9 10 ;;
  runWithBounds "computePositionDelta" 9 10.

Definition updatePositionDelta : M unit :=
  n <- gets numParticles ;; run1D "updatePositionDelta" n.

Definition handleCollisions : M unit := runWithBounds "resolveCollisions" 2 3.

Definition updatePosition : M unit :=
  runWithBounds "computeCurl" 8 9 ;;
  runWithBounds "updatePosition" 10 11.

(** The body of the solver loop. *)
Definition solverIteration : M unit :=
  calculateDensity ;;
  calculatePositionDelta ;;
  updatePositionDelta.

Definition step : M unit :=
  let N := SOLVER_ITERATIONS in
  resetQuantities ;;
  predictPositions ;;
  findNeighboringParticles ;;
  for_upto N (fun _ => solverIteration) ;;
  updatePosition ;;
  send Finish ;;
  when DRAW_PARTICLES_AS_SPHERES readFromGPU ;;
  ab <- gets animBounds ;; when ab stepBoundsAnimation ;;
  modify (fun s => set_frameNumber (uincr (frameNumber s)) s).

(** ** Histories *)

(** The non-const public methods of the class. *)
Inductive Call : Type :=
| CallStep
| CallReset
| CallResetBounds
| CallSetBounds (b : AABB F)
| CallSetParameters (p : Parameters)
| CallToggleDrawGrid
| CallToggleVisualDebugging
| CallEnableBoundsAnimation
| CallDisableBoundsAnimation
| CallEnableBothSidesAnimation
| CallDisableBothSidesAnimation
| CallSetAnimationType (a : AnimationType)
| CallSetAnimationPeriod (period : F)
| CallSetAnimationAmp (amp : F).

Definition call (c : Call) : M unit :=
  match c with
  | CallStep => step
  | CallReset => reset
  | CallResetBounds => resetBounds
  | CallSetBounds b => setBounds b
  | CallSetParameters p => setParameters p
  | CallToggleDrawGrid => toggleDrawGrid
  | CallToggleVisualDebugging => toggleVisualDebugging
  | CallEnableBoundsAnimation => enableBoundsAnimation
  | CallDisableBoundsAnimation => disableBoundsAnimation
  | CallEnableBothSidesAnimation => enableBothSidesAnimation
  | CallDisableBothSidesAnimation => disableBothSidesAnimation
  | CallSetAnimationType a => setAnimationType a
  | CallSetAnimationPeriod period => setAnimationPeriod period
  | CallSetAnimationAmp amp => setAnimationAmp amp
  end.

(** The objects a program can hold: built by one of the two constructors
    from the bounds [b0], then driven through the public methods. *)
Inductive reachable (b0 : AABB F) : Simulation -> Prop :=
| reach_construct cl g n p :
    reachable b0 (construct cl g b0 n p)
| reach_constructWithGrid cl g n d c p :
    reachable b0 (constructWithGrid cl g b0 n d c p)
| reach_call c s :
    reachable b0 s -> reachable b0 (exec (call c) s).

(** A sequence of calls, first to last. *)
Fixpoint runCalls (cs : list Call) : M unit :=
  match cs with
  | [] => ret tt
  | c :: cs' => call c ;; runCalls cs'
  end.

(** [n] successive calls of a method, the count in binary. *)
Definition times (n : N) (m : M unit) : M unit :=
  fun s => (tt, N.iter n (exec m) s).

(** The commands a method sends when started in [s]. *)
Definition issued {A} (m : M A) (s : Simulation) : list Cmd :=
  skipn (List.length (openCL s)) (openCL (exec m s)).

(** The kernels (and the prefix-sum scan) launched by a run of commands. *)
Definition launch (c : Cmd) : list string :=
  match c with
  | Run1D k _ => [k]
  | Scan _ _ _ => ["PrefixSum::scan"]
  | _ => []
  end.
Definition launches (cs : list Cmd) : list string := flat_map launch cs.

(** The stages of one step. *)
Definition stagesBefore : list string :=
  ["resetParticleQuantities"; "resetCellQuantities"; "predictPosition";
   "discretizeParticlePositions"; "PrefixSum::scan";
   "countSortParticlesByCell"; "findParticleBins"].
Definition stagesIteration : list string :=
  ["estimateDensity"; "computeLambda"; "computePositionDelta";
   "updatePositionDelta"].
Definition stagesAfter : list string := ["computeCurl"; "updatePosition"].

(** ** Judgements on methods *)

(** [m] leaves the observation [f] of the object as it was. *)
Definition preserves {A B} (f : Simulation -> A) (m : M B) : Prop :=
  forall s, f (exec m s) = f s.

(** [m] only appends to the commands sent to the device, and what it
    appends launches exactly [names], in that order. *)
Definition launching {A} (m : M A) (names : list string) : Prop :=
  forall s, exists cs,
    openCL (exec m s) = (openCL s ++ cs)%list /\ launches cs = names.

End Simulation.

(** ** What the device is told *)

Section Observations.

Context {F : Type} {FO : FloatOps F} {E : Env F}.

Local Open Scope string_scope.
Local Open Scope list_scope.

Local Abbreviation Cmd := (Command F Parameters).

(** Rebinding both bounds arguments of kernel [k] to the bounds of [s] and
    running it over the particles of [s]. *)
Definition boundCommands (s : Simulation) (k : string) (iMin iMax : nat)
  : list Cmd :=
  [SetArg k iMin (ArgVec3 (getMinExtent (bounds s)));
   SetArg k iMax (ArgVec3 (getMaxExtent (bounds s)));
   Run1D k (numParticles s)].

(** The commands of one round of the solver loop, of the part of a step
    before the loop, and of the part after it. *)
Definition iterationCommands (s : Simulation) : list Cmd :=
  boundCommands s "estimateDensity" 8 9
    ++ boundCommands s "computeLambda" 9 10
    ++ boundCommands s "computePositionDelta" 9 10
    ++ [Run1D "updatePositionDelta" (numParticles s)].

Definition commandsBefore (s : Simulation) : list Cmd :=
  [Run1D "resetParticleQuantities" (numParticles s);
   Run1D "resetCellQuantities" (numCells s);
   Run1D "predictPosition" (numParticles s)]
    ++ boundCommands s "discretizeParticlePositions" 6 7
    ++ [Scan "cellPrefixSums" "cellHistogram" (numCells s);
        Run1D "countSortParticlesByCell" (numParticles s);
        Run1D "findParticleBins" (numParticles s)].

Definition commandsAfter (s : Simulation) : list Cmd :=
  boundCommands s "computeCurl" 8 9
    ++ boundCommands s "updatePosition" 10 11
    ++ [Finish].

Definition stepCommands (s : Simulation) : list Cmd :=
  commandsBefore s
    ++ List.concat (repeat (iterationCommands s)
                      (Z.to_nat SOLVER_ITERATIONS))
    ++ commandsAfter s.

(** The program and kernels a run of commands loads. *)
Definition load (c : Cmd) : list string :=
  match c with
  | LoadProgram f => [f]
  | LoadKernel k => [k]
  | _ => []
  end.
Definition loaded (cs : list Cmd) : list string := flat_map load cs.

(** The kernels of [kernels/Simulation.cl], in the order [setupKernels]
    goes through them. *)
Definition kernelNames : list string :=
  ["debugHistogram"; "debugSorting"; "resetParticleQuantities";
   "resetCellQuantities"; "predictPosition"; "discretizeParticlePositions";
   "countSortParticlesByCell"; "findParticleBins"; "estimateDensity";
   "computeLambda"; "computePositionDelta"; "updatePositionDelta";
   "resolveCollisions"; "computeCurl"; "updatePosition"].

(** The parameters and the particles last uploaded by a run of commands. *)
Fixpoint lastParameters (cs : list Cmd) : option Parameters :=
  match cs with
  | [] => None
  | c :: cs' =>
      match lastParameters cs' with
      | Some p => Some p
      | None => match c with WriteParameters p => Some p | _ => None end
      end
  end.

Fixpoint lastParticles (cs : list Cmd) : option (list (Particle F)) :=
  match cs with
  | [] => None
  | c :: cs' =>
      match lastParticles cs' with
      | Some ps => Some ps
      | None => match c with WriteParticles ps => Some ps | _ => None end
      end
  end.

(** Both counters hold values of an [unsigned int]. *)
Definition countersInRange (s : Simulation) : Prop :=
  (0 <= frameNumber s <= UINT_MAX)%Z /\
  (0 <= animFrameNumber s <= UINT_MAX)%Z.

(** [m] only appends to the commands sent to the device, and what it
    appends loads exactly [names], in that order. *)
Definition loading {A} (m : M A) (names : list string) : Prop :=
  forall s, exists cs,
    openCL (exec m s) = openCL s ++ cs /\ loaded cs = names.

(** The host copies of the parameters and of the particles are the ones
    last uploaded. *)
Definition inSync (s : Simulation) : Prop :=
  lastParameters (openCL s) = Some (parameters s) /\
  lastParticles (openCL s) = Some (particles s).

(** The argument that slot [i] of kernel [k] holds after the commands
    [cs]: the one bound last. *)
Fixpoint boundArg (k : string) (i : nat) (cs : list Cmd) : option (Arg F) :=
  match cs with
  | [] => None
  | c :: cs' =>
      match boundArg k i cs' with
      | Some a => Some a
      | None =>
          match c with
          | SetArg k' i' a =>
              if (String.eqb k' k && Nat.eqb i' i)%bool then Some a else None
          | _ => None
          end
      end
  end.

(** Commands appended to a log one at a time. *)
Definition snocAll (l cs : list Cmd) : list Cmd :=
  fold_left (fun acc c => acc ++ [c]) cs l.

(** [value] in the two wave branches of [stepBoundsAnimation]; the
    [COMPRESS] branch computes none. *)
Definition waveValue (s : Simulation) : option F :=
  match animType s with
  | SINE_WAVE => Some (sineValue s)
  | LINEAR_RAMP => Some (rampValue s)
  | COMPRESS => None
  end.



End Observations.

(** The values of an [int]. *)
Definition INT_MAX : Z := 2 ^ 31 - 1.
Definition INT_MIN : Z := - 2 ^ 31.
Definition fitsInt (z : Z) : Prop := (INT_MIN <= z <= INT_MAX)%Z.

(** The least integer not below [x]: the value of [ceil] in exact
    arithmetic. *)
Definition Rceil (x : R) : Z := (- Int_part (- x))%Z.

(** [ofRandom] returns a value inside the range it is asked for. *)
Definition ofRandomInRange {E : Env R} : Prop :=
  forall (lo hi : R) (g : Rng),
    (lo <= hi)%R ->
    (lo <= fst (ofRandom lo hi g) <= hi)%R.

(** ** Exact arithmetic *)

(** [static_cast<int>] truncates towards zero. *)
Definition Rtrunc (x : R) : Z :=
  if Rle_dec 0 x then Int_part x else (- Int_part (- x))%Z.

(** The operations of [float] read as the exact operations on the reals. *)
#[export] Instance RealOps : FloatOps R := {
  fadd := Rplus;
  fsub := Rminus;
  fmul := Rmult;
  fdiv := Rdiv;
  fle := fun x y => if Rle_dec x y then true else false;
  flit := Q2R;
  of_int := IZR;
  to_int := Rtrunc;
  ffloor := fun x => IZR (Int_part x);
  fceil := fun x => IZR (- Int_part (- x));
  fsin := sin;
  M_PI := PI;
  ofDegToRad := fun d => (d * (PI / 180))%R
}.

(** ** A sample configuration *)

(** A configuration to run the definitions on: four solver iterations, a
    time step of 1/30, points drawn instead of spheres, and a generator
    that returns the middle of the requested range and counts its calls. *)
#[export] Instance SampleEnv : Env R := {
  Parameters := R;
  particleRadius := fun r => r;
  SOLVER_ITERATIONS := 4;
  DEFAULT_DT := Q2R (1 # 30);
  PARTICLES_PER_CELL_X := 4;
  PARTICLES_PER_CELL_Y := 4;
  PARTICLES_PER_CELL_Z := 4;
  DRAW_PARTICLES_AS_SPHERES := false;
  Rng := nat;
  ofRandom := fun lo hi g => ((lo + (hi - lo) / 2)%R, S g);
  uninitParticle :=
    mkParticle (mkVec3 0%R 0%R 0%R) (mkVec3 0%R 0%R 0%R) (mkVec3 0%R 0%R 0%R);
  deviceParameters := fun _ => 1%R;
  deviceParticles := fun _ => []
}.

(** The box [0,300] x [0,100] x [0,100]. *)
Definition sampleBounds : AABB R :=
  mkAABB (mkVec3 0%R 0%R 0%R) (mkVec3 300%R 100%R 100%R).

(** Eight particles of radius 1 on a 4 x 4 x 4 grid. *)
Definition sampleSim : @Simulation R SampleEnv :=
  constructWithGrid [] O sampleBounds 8 (Q2R (1 # 30))
    (mkVec3 4%R 4%R 4%R) 1%R.

(** The sample object after as many steps as the largest [unsigned int],
    without and with the animation of the bounds. *)
Definition lastFrameSim : @Simulation R SampleEnv :=
  exec (times (Z.to_N UINT_MAX) step) sampleSim.
Definition lastAnimFrameSim : @Simulation R SampleEnv :=
  exec (times (Z.to_N UINT_MAX) step)
       (exec enableBoundsAnimation sampleSim).

(** The sample object with the animation enabled, after [2^32 - 720]
    steps: 720 frames before the animation counter starts again from 0. *)
Definition wrapSim : @Simulation R SampleEnv :=
  exec (times (Z.to_N (UINT_MOD - 720)) step)
       (exec enableBoundsAnimation sampleSim).

(** The sample object with both sides animated. *)
Definition bothSidesSim : @Simulation R SampleEnv :=
  exec enableBothSidesAnimation sampleSim.

(** The sample object switched to [COMPRESS]. *)
Definition compressSim : @Simulation R SampleEnv :=
  exec (setAnimationType COMPRESS) sampleSim.

(** The box [0,300] x [100,200] x [0,100] and one particle of radius 1
    in it. *)
Definition raisedBounds : AABB R :=
  mkAABB (mkVec3 0%R 100%R 0%R) (mkVec3 300%R 200%R 100%R).
Definition raisedSim : @Simulation R SampleEnv :=
  constructWithGrid [] O raisedBounds 1 (Q2R (1 # 30))
    (mkVec3 4%R 4%R 4%R) 1%R.


(** * Properties *)

(** ** The counter arithmetic *)

Lemma uincr_spec (n : Z) : uincr n = ((n + 1) mod 2 ^ 32)%Z.
Proof. reflexivity. Qed.

Lemma uincr_below (n : Z) : (0 <= n < UINT_MAX)%Z -> uincr n = (n + 1)%Z.
Proof.
  unfold uincr, uwrap, UINT_MAX, UINT_MOD, UINT_BITS. intros H.
  apply Z.mod_small. lia.
Qed.

Lemma uincr_max : uincr UINT_MAX = 0%Z.
Proof. reflexivity. Qed.

Lemma uwrap_range (z : Z) : (0 <= uwrap z <= UINT_MAX)%Z.
Proof.
  unfold uwrap, UINT_MAX. assert (H : (0 < UINT_MOD)%Z) by reflexivity.
  pose proof (Z.mod_pos_bound z UINT_MOD H). lia.
Qed.

Lemma uwrap_uincr (z : Z) : uincr (uwrap z) = uwrap (z + 1).
Proof.
  unfold uincr, uwrap. assert (H : (UINT_MOD <> 0)%Z) by discriminate.
  rewrite Z.add_mod_idemp_l by exact H. reflexivity.
Qed.

Section Properties.

Context {F : Type} {FO : FloatOps F} {E : Env F}.

Local Open Scope list_scope.

(** ** Running composed methods *)

Lemma exec_bind A B (m : M A) (k : A -> M B) (s : Simulation) :
  exec (bind m k) s = exec (k (eval m s)) (exec m s).
Proof. unfold exec, eval, bind. destruct (m s); reflexivity. Qed.

Lemma eval_bind A B (m : M A) (k : A -> M B) (s : Simulation) :
  eval (bind m k) s = eval (k (eval m s)) (exec m s).
Proof. unfold exec, eval, bind. destruct (m s); reflexivity. Qed.

Lemma exec_when_true (m : M unit) s : exec (when true m) s = exec m s.
Proof. reflexivity. Qed.

Lemma exec_when_false (m : M unit) s : exec (when false m) s = s.
Proof. reflexivity. Qed.

(** ** Frame rules *)

Lemma preserves_ret A B (f : Simulation -> A) (b : B) : preserves f (ret b).
Proof. intros s; reflexivity. Qed.

Lemma preserves_gets A B (f : Simulation -> A) (g : Simulation -> B) :
  preserves f (gets g).
Proof. intros s; reflexivity. Qed.

Lemma preserves_bind A B C (f : Simulation -> A) (m : M B) (k : B -> M C) :
  preserves f m -> (forall b, preserves f (k b)) -> preserves f (bind m k).
Proof.
  intros Hm Hk s. rewrite exec_bind, Hk, Hm. reflexivity.
Qed.

Lemma preserves_modify A (f : Simulation -> A) (g : Simulation -> Simulation) :
  (forall s, f (g s) = f s) -> preserves f (modify g).
Proof. intros H s. apply H. Qed.

Lemma preserves_when A (f : Simulation -> A) (c : bool) (m : M unit) :
  preserves f m -> preserves f (when c m).
Proof. intros H. destruct c; [exact H | apply preserves_ret]. Qed.

Lemma preserves_for_from A (f : Simulation -> A) (body : Z -> M unit) :
  (forall i, preserves f (body i)) ->
  forall n i, preserves f (for_from i n body).
Proof.
  intros H n. induction n as [|n IH]; intros i; simpl.
  - apply preserves_ret.
  - apply preserves_bind; [apply H | intros _; apply IH].
Qed.

Lemma preserves_for_upto A (f : Simulation -> A) n (body : Z -> M unit) :
  (forall i, preserves f (body i)) -> preserves f (for_upto n body).
Proof. intros H. apply preserves_for_from, H. Qed.

Lemma preserves_send A (f : Simulation -> A) (c : Command F Parameters) :
  (forall v s, f (set_openCL v s) = f s) -> preserves f (send c).
Proof. intros H s. apply H. Qed.

Lemma preserves_random A (f : Simulation -> A) (lo hi : F) :
  (forall v s, f (set_randState v s) = f s) -> preserves f (random lo hi).
Proof.
  intros H s. unfold exec, random.
  destruct (ofRandom lo hi (randState s)). apply H.
Qed.

Lemma preserves_bindArgs A (f : Simulation -> A) k args :
  (forall v s, f (set_openCL v s) = f s) ->
  forall i, preserves f (bindArgs k i args).
Proof.
  intros H. induction args as [|a args IH]; intros i; simpl.
  - apply preserves_ret.
  - apply preserves_bind; [apply preserves_send, H | intros _; apply IH].
Qed.

End Properties.

(** Solving frame goals by following the structure of the method. *)
Ltac head_of t := match t with ?f _ => head_of f | _ => t end.

Ltac frame_step :=
  lazymatch goal with
  | |- preserves _ (bind _ _) => apply preserves_bind; [| intros ?]
  | |- preserves _ (ret _) => apply preserves_ret
  | |- preserves _ (gets _) => apply preserves_gets
  | |- preserves _ (when _ _) => apply preserves_when
  | |- preserves _ (for_upto _ _) => apply preserves_for_upto; intros ?
  | |- preserves _ (send _) => apply preserves_send; intros; reflexivity
  | |- preserves _ (modify _) => apply preserves_modify; intros; reflexivity
  | |- preserves _ (random _ _) =>
      apply preserves_random; intros; reflexivity
  | |- preserves _ (bindArgs _ _ _) =>
      apply preserves_bindArgs; intros; reflexivity
  | |- preserves _ (match ?x with _ => _ end) => destruct x
  | |- preserves _ ?m => let h := head_of m in unfold h
  end.

Ltac frame := repeat frame_step.

Section Structure.

Context {F : Type} {FO : FloatOps F} {E : Env F}.

Local Open Scope list_scope.

Lemma preserved A B (f : Simulation -> A) (m : M B) (s : Simulation) :
  preserves f m -> f (exec m s) = f s.
Proof. intros H. apply H. Qed.

(** ** One step and the frame counter *)

Lemma step_frameNumber (s : Simulation) :
  frameNumber (exec step s) = uincr (frameNumber s).
Proof.
  unfold step. cbv zeta. rewrite !exec_bind.
  cbn [exec modify snd set_frameNumber frameNumber]. f_equal.
  rewrite !preserved by frame. reflexivity.
Qed.

(** ** Commands sent to the device *)

Lemma launches_app (xs ys : list (Command F Parameters)) :
  launches (xs ++ ys) = launches xs ++ launches ys.
Proof. apply flat_map_app. Qed.

Lemma launching_conv A (m : M A) (l l' : list string) :
  launching m l -> l = l' -> launching m l'.
Proof. intros H <-. exact H. Qed.

Lemma launching_quiet A (m : M A) : preserves openCL m -> launching m [].
Proof.
  intros H s. exists []. rewrite H, app_nil_r. split; reflexivity.
Qed.

Lemma launching_send (c : Command F Parameters) :
  launching (send c) (launch c).
Proof.
  intros s. exists [c]. split; [reflexivity | apply app_nil_r].
Qed.

Lemma launching_bind A B (m : M A) (k : A -> M B) (l1 l2 : list string) :
  launching m l1 -> (forall a, launching (k a) l2) ->
  launching (bind m k) (l1 ++ l2).
Proof.
  intros Hm Hk s. rewrite exec_bind.
  destruct (Hm s) as [cs1 [E1 L1]].
  destruct (Hk (eval m s) (exec m s)) as [cs2 [E2 L2]].
  exists (cs1 ++ cs2). rewrite E2, E1, app_assoc, launches_app, L1, L2.
  split; reflexivity.
Qed.

Lemma launching_for_from (body : Z -> M unit) (l : list string) :
  (forall i, launching (body i) l) ->
  forall n i, launching (for_from i n body) (List.concat (repeat l n)).
Proof.
  intros H n. induction n as [|n IH]; intros i; simpl.
  - apply launching_quiet, preserves_ret.
  - apply launching_bind; [apply H | intros _; apply IH].
Qed.

Lemma launching_for_upto n (body : Z -> M unit) (l : list string) :
  (forall i, launching (body i) l) ->
  launching (for_upto n body) (List.concat (repeat l (Z.to_nat n))).
Proof. intros H. apply launching_for_from, H. Qed.

Lemma launching_run1D k n : launching (run1D k n) [k].
Proof. apply (launching_send (Run1D k n)). Qed.

Lemma launching_setArg k i a : launching (setArg k i a) [].
Proof. apply (launching_send (SetArg k i a)). Qed.

Lemma launching_scan dst src n :
  launching (send (Scan dst src n)) ["PrefixSum::scan"%string].
Proof. apply (launching_send (Scan dst src n)). Qed.

Lemma launching_finish : launching (send Finish) [].
Proof. apply (launching_send (@Finish F Parameters)). Qed.

Lemma launching_runWithBounds k i j : launching (runWithBounds k i j) [k].
Proof.
  unfold runWithBounds.
  eapply launching_conv.
  - apply launching_bind; [apply launching_quiet; frame | intros b].
    apply launching_bind; [apply launching_setArg | intros _].
    apply launching_bind; [apply launching_quiet; frame | intros b'].
    apply launching_bind; [apply launching_setArg | intros _].
    apply launching_bind; [apply launching_quiet; frame | intros n].
    apply launching_run1D.
  - reflexivity.
Qed.

Lemma launching_solverIteration : launching solverIteration stagesIteration.
Proof.
  unfold solverIteration, calculateDensity, calculatePositionDelta,
    updatePositionDelta.
  eapply launching_conv.
  - apply launching_bind; [apply launching_runWithBounds | intros _].
    apply launching_bind; [| intros _].
    + apply launching_bind; [apply launching_runWithBounds | intros _].
      apply launching_runWithBounds.
    + apply launching_bind; [apply launching_quiet; frame | intros n].
      apply launching_run1D.
  - reflexivity.
Qed.

Lemma launching_after : launching updatePosition stagesAfter.
Proof.
  unfold updatePosition. eapply launching_conv.
  - apply launching_bind; [apply launching_runWithBounds | intros _].
    apply launching_runWithBounds.
  - reflexivity.
Qed.

Lemma launching_step :
  launching step
    (stagesBefore
       ++ List.concat (repeat stagesIteration (Z.to_nat SOLVER_ITERATIONS))
       ++ stagesAfter).
Proof.
  unfold step. cbv zeta.
  eapply launching_conv.
  - apply launching_bind; [| intros _].
    { unfold resetQuantities.
      apply launching_bind; [apply launching_quiet; frame | intros n].
      apply launching_bind; [apply launching_run1D | intros _].
      apply launching_bind; [apply launching_quiet; frame | intros c].
      apply launching_run1D. }
    apply launching_bind; [| intros _].
    { unfold predictPositions.
      apply launching_bind; [apply launching_quiet; frame | intros n].
      apply launching_run1D. }
    apply launching_bind; [| intros _].
    { unfold findNeighboringParticles, discretizeParticlePositions,
        sortParticlesByCell.
      apply launching_bind; [apply launching_runWithBounds | intros _].
      apply launching_bind; [apply launching_quiet; frame | intros c].
      apply launching_bind; [apply launching_scan | intros _].
      apply launching_bind; [apply launching_quiet; frame | intros n].
      apply launching_bind; [apply launching_run1D | intros _].
      apply launching_bind; [apply launching_quiet; frame | intros n'].
      apply launching_run1D. }
    apply launching_bind; [| intros _].
    { apply launching_for_upto. intros _. apply launching_solverIteration. }
    apply launching_bind; [apply launching_after | intros _].
    apply launching_bind; [apply launching_finish | intros _].
    apply launching_bind; [apply launching_quiet; frame | intros _].
    apply launching_bind; [apply launching_quiet; frame | intros ab].
    apply launching_bind; [apply launching_quiet; frame | intros _].
    apply launching_quiet; frame.
  - cbn [app launch]. rewrite !app_nil_r. reflexivity.
Qed.

Lemma issued_launching A (m : M A) (l : list string) (s : Simulation) :
  launching m l -> launches (issued m s) = l.
Proof.
  intros H. destruct (H s) as [cs [Ecs L]]. unfold issued.
  rewrite Ecs, skipn_app, skipn_all, Nat.sub_diag. exact L.
Qed.

(** ** What never changes after construction *)

Lemma call_originalBounds c : preserves originalBounds (call c).
Proof. destruct c; frame. Qed.

Lemma call_numParticles c : preserves numParticles (call c).
Proof. destruct c; frame. Qed.

Lemma call_cellsPerAxis c : preserves cellsPerAxis (call c).
Proof. destruct c; frame. Qed.

Lemma call_dt c : preserves dt (call c).
Proof. destruct c; frame. Qed.

Lemma initialize_originalBounds : preserves originalBounds initialize.
Proof. frame. Qed.

Lemma reachable_originalBounds b0 s : reachable b0 s -> originalBounds s = b0.
Proof.
  induction 1 as [cl g n p | cl g n d c p | c s _ IH].
  - unfold construct. rewrite !exec_bind.
    rewrite !preserved by frame. reflexivity.
  - unfold constructWithGrid. rewrite preserved by frame. reflexivity.
  - rewrite call_originalBounds. exact IH.
Qed.

(** ** The cell count *)

Lemma initializeBuffers_numCells s :
  numCells (exec initializeBuffers s) = cellProduct (cellsPerAxis s).
Proof.
  unfold initializeBuffers. cbv zeta. rewrite !exec_bind.
  rewrite !preserved by frame.
  cbn [exec modify snd set_numCells numCells].
  rewrite !preserved by frame. reflexivity.
Qed.

Lemma initialize_numCells s :
  numCells (exec initialize s) = cellProduct (cellsPerAxis s).
Proof.
  unfold initialize. rewrite !exec_bind. rewrite !preserved by frame.
  rewrite initializeBuffers_numCells. rewrite !preserved by frame.
  reflexivity.
Qed.

Lemma initialize_cellsPerAxis : preserves cellsPerAxis initialize.
Proof. frame. Qed.

Lemma reset_numCells s :
  numCells (exec reset s) = cellProduct (cellsPerAxis s).
Proof.
  unfold reset. rewrite !exec_bind. rewrite !preserved by frame.
  rewrite initializeBuffers_numCells. rewrite !preserved by frame.
  reflexivity.
Qed.

Lemma call_numCells c s :
  numCells s = cellProduct (cellsPerAxis s) ->
  numCells (exec (call c) s) = cellProduct (cellsPerAxis s).
Proof.
  intros H. destruct c; try (rewrite preserved by frame; exact H).
  apply reset_numCells.
Qed.

Lemma reachable_numCells b0 s :
  reachable b0 s -> numCells s = cellProduct (cellsPerAxis s).
Proof.
  induction 1 as [cl g n p | cl g n d c p | c s _ IH].
  - unfold construct. rewrite !exec_bind.
    rewrite initialize_numCells, initialize_cellsPerAxis. reflexivity.
  - unfold constructWithGrid.
    rewrite initialize_numCells, initialize_cellsPerAxis. reflexivity.
  - rewrite call_cellsPerAxis. apply call_numCells, IH.
Qed.

Lemma reachable_runCalls b0 cs : forall s,
  reachable b0 s -> reachable b0 (exec (runCalls cs) s).
Proof.
  induction cs as [|c cs IH]; intros s H; simpl.
  - exact H.
  - rewrite exec_bind. apply IH. apply reach_call. exact H.
Qed.

(** ** Resetting *)

Lemma resetBounds_bounds s : bounds (exec resetBounds s) = originalBounds s.
Proof. reflexivity. Qed.

Lemma resetBounds_animFrameNumber s :
  animFrameNumber (exec resetBounds s) = 0%Z.
Proof. reflexivity. Qed.

Lemma reset_bounds s : bounds (exec reset s) = originalBounds s.
Proof.
  unfold reset. rewrite !exec_bind. rewrite !preserved by frame.
  rewrite resetBounds_bounds. rewrite !preserved by frame. reflexivity.
Qed.

Lemma reset_animFrameNumber s : animFrameNumber (exec reset s) = 0%Z.
Proof.
  unfold reset. rewrite !exec_bind. rewrite !preserved by frame.
  apply resetBounds_animFrameNumber.
Qed.

Lemma reset_frameNumber s : frameNumber (exec reset s) = 0%Z.
Proof.
  unfold reset. rewrite !exec_bind. rewrite !preserved by frame.
  reflexivity.
Qed.

(** ** The animation counter *)

Lemma stepBoundsAnimation_animFrameNumber s :
  animFrameNumber (exec stepBoundsAnimation s) = uincr (animFrameNumber s).
Proof.
  unfold stepBoundsAnimation. rewrite !exec_bind.
  cbn [exec modify snd set_animFrameNumber animFrameNumber]. f_equal.
  rewrite !preserved by frame. reflexivity.
Qed.

Lemma step_animBounds : preserves animBounds step.
Proof. frame. Qed.

Lemma step_animFrameNumber s :
  animFrameNumber (exec step s) =
  if animBounds s then uincr (animFrameNumber s) else animFrameNumber s.
Proof.
  unfold step. cbv zeta. rewrite !exec_bind.
  rewrite preserved by frame.
  set (s1 := exec (when DRAW_PARTICLES_AS_SPHERES readFromGPU) _).
  assert (Hb : eval (gets animBounds) s1 = animBounds s).
  { unfold s1, eval, gets. cbn [fst]. rewrite !preserved by frame.
    reflexivity. }
  assert (Hf : animFrameNumber s1 = animFrameNumber s).
  { unfold s1. rewrite !preserved by frame. reflexivity. }
  rewrite Hb. rewrite (preserved (m := gets animBounds)) by frame.
  destruct (animBounds s).
  - rewrite exec_when_true, stepBoundsAnimation_animFrameNumber, Hf.
    reflexivity.
  - rewrite exec_when_false. exact Hf.
Qed.

(** ** The animation and the axes *)

Lemma stepBoundsAnimation_minY :
  preserves (fun s => vy (minV (bounds s))) stepBoundsAnimation.
Proof. frame. Qed.

Lemma stepBoundsAnimation_minZ :
  preserves (fun s => vz (minV (bounds s))) stepBoundsAnimation.
Proof. frame. Qed.

Lemma stepBoundsAnimation_maxY :
  preserves (fun s => vy (maxV (bounds s))) stepBoundsAnimation.
Proof. frame. Qed.

Lemma stepBoundsAnimation_maxZ :
  preserves (fun s => vz (maxV (bounds s))) stepBoundsAnimation.
Proof. frame. Qed.

(** ** The pipeline of one step *)

(** C1.  Every call of [step] launches, in this order: the two reset
    kernels, the position prediction, the grid construction (discretize,
    then the counting sort: prefix-sum scan, scatter, bin lookup), then
    [SOLVER_ITERATIONS] rounds of estimateDensity, computeLambda,
    computePositionDelta, updatePositionDelta, and finally the curl
    computation and the position update. *)
Theorem step_stage_order (s : Simulation) :
  launches (issued step s) =
  stagesBefore
    ++ List.concat (repeat stagesIteration (Z.to_nat SOLVER_ITERATIONS))
    ++ stagesAfter.
Proof. apply issued_launching, launching_step. Qed.

(** C2 (amended).  [step] returns nothing and advances the frame counter
    by one modulo 2^32: [getFrameNumber] afterwards is its value before
    plus one, except at the largest [unsigned int], where it is 0. *)
Theorem step_frameNumber_wrapping (s : Simulation) :
  (0 <= frameNumber s <= UINT_MAX)%Z ->
  eval step s = tt /\
  eval getFrameNumber (exec step s) =
  if (eval getFrameNumber s =? UINT_MAX)%Z then 0%Z
  else (eval getFrameNumber s + 1)%Z.
Proof.
  intros H. split; [destruct (eval step s); reflexivity |].
  unfold eval, getFrameNumber, gets. cbn [fst].
  rewrite step_frameNumber.
  destruct (Z.eqb_spec (frameNumber s) UINT_MAX) as [-> | Hne].
  - apply uincr_max.
  - apply uincr_below. lia.
Qed.

(** C3.  After [reset] the current bounds are the bounds the object was
    constructed with, and the particle count, the cells per axis and the
    cell count are what they were before the call. *)
Theorem reset_restores_bounds_keeps_sizes (b0 : AABB F) (s : Simulation) :
  reachable b0 s ->
  eval getBounds (exec reset s) = b0 /\
  numParticles (exec reset s) = numParticles s /\
  cellsPerAxis (exec reset s) = cellsPerAxis s /\
  numCells (exec reset s) = numCells s.
Proof.
  intros H. repeat split.
  - unfold eval, getBounds, gets. cbn [fst].
    rewrite reset_bounds. apply reachable_originalBounds, H.
  - rewrite preserved by frame. reflexivity.
  - rewrite preserved by frame. reflexivity.
  - rewrite reset_numCells. symmetry. apply (reachable_numCells H).
Qed.

(** C8.  Whatever the animation type, [stepBoundsAnimation] leaves the Y
    and Z components of both corners of the bounds as they were. *)
Theorem stepBoundsAnimation_only_x (s : Simulation) :
  vy (getMinExtent (bounds (exec stepBoundsAnimation s)))
    = vy (getMinExtent (bounds s)) /\
  vz (getMinExtent (bounds (exec stepBoundsAnimation s)))
    = vz (getMinExtent (bounds s)) /\
  vy (getMaxExtent (bounds (exec stepBoundsAnimation s)))
    = vy (getMaxExtent (bounds s)) /\
  vz (getMaxExtent (bounds (exec stepBoundsAnimation s)))
    = vz (getMaxExtent (bounds s)).
Proof.
  repeat split.
  - apply stepBoundsAnimation_minY.
  - apply stepBoundsAnimation_minZ.
  - apply stepBoundsAnimation_maxY.
  - apply stepBoundsAnimation_maxZ.
Qed.

(** C9 (amended).  [resetBounds] and [reset] set the animation counter to
    0; [stepBoundsAnimation] advances it by one modulo 2^32, so it grows
    strictly until it reaches the largest [unsigned int] and then starts
    again from 0. *)
Theorem animFrameNumber_wrapping (s : Simulation) :
  (0 <= animFrameNumber s <= UINT_MAX)%Z ->
  animFrameNumber (exec resetBounds s) = 0%Z /\
  animFrameNumber (exec reset s) = 0%Z /\
  animFrameNumber (exec stepBoundsAnimation s) =
    (if (animFrameNumber s =? UINT_MAX)%Z then 0%Z
     else (animFrameNumber s + 1)%Z) /\
  ((animFrameNumber s < UINT_MAX)%Z ->
   (animFrameNumber s < animFrameNumber (exec stepBoundsAnimation s))%Z).
Proof.
  intros H. split; [apply resetBounds_animFrameNumber |].
  split; [apply reset_animFrameNumber |].
  rewrite stepBoundsAnimation_animFrameNumber.
  destruct (Z.eqb_spec (animFrameNumber s) UINT_MAX) as [-> | Hne].
  - split; [apply uincr_max | lia].
  - rewrite uincr_below by lia. split; [reflexivity | lia].
Qed.

(** C10.  [setBounds] replaces the current bounds and nothing else, the
    original bounds in particular; whatever is called afterwards, a
    [resetBounds] or a [reset] brings back the bounds given to the
    constructor. *)
Theorem setBounds_keeps_originalBounds
    (b0 : AABB F) (s : Simulation) (b : AABB F) (cs : list Call) :
  reachable b0 s ->
  exec (setBounds b) s = set_bounds b s /\
  originalBounds (exec (setBounds b) s) = originalBounds s /\
  originalBounds s = b0 /\
  bounds (exec resetBounds (exec (runCalls cs) (exec (setBounds b) s))) = b0 /\
  bounds (exec reset (exec (runCalls cs) (exec (setBounds b) s))) = b0.
Proof.
  intros H.
  assert (H' : reachable b0 (exec (runCalls cs) (exec (setBounds b) s))).
  { apply reachable_runCalls. apply (reach_call (CallSetBounds b)), H. }
  repeat split.
  - apply (reachable_originalBounds H).
  - rewrite resetBounds_bounds. apply (reachable_originalBounds H').
  - rewrite reset_bounds. apply (reachable_originalBounds H').
Qed.

End Structure.

(** ** Repeated and successive calls *)

Section Sequences.

Context {F : Type} {FO : FloatOps F} {E : Env F}.

Lemma times_0 (m : M unit) (s : Simulation) : exec (times 0 m) s = s.
Proof. reflexivity. Qed.

Lemma times_succ (n : N) (m : M unit) (s : Simulation) :
  exec (times (N.succ n) m) s = exec m (exec (times n m) s).
Proof. unfold times, exec at 1 3. cbn [snd]. apply N.iter_succ. Qed.

Lemma preserves_times A (f : Simulation -> A) (m : M unit) (n : N) :
  preserves f m -> preserves f (times n m).
Proof.
  intros H s. induction n as [|n IH] using N.peano_ind.
  - reflexivity.
  - rewrite times_succ, H. exact IH.
Qed.



Lemma stepBoundsAnimation_animType : preserves animType stepBoundsAnimation.
Proof. frame. Qed.

Lemma stepBoundsAnimation_originalBounds :
  preserves originalBounds stepBoundsAnimation.
Proof. frame. Qed.

Lemma stepBoundsAnimation_animBothSides :
  preserves animBothSides stepBoundsAnimation.
Proof. frame. Qed.

(** Whatever the scalar type, the sine value only sees the frame count
    through its remainder modulo 720. *)
Lemma sineValue_periodic (s s' : Simulation) :
  animAmp s' = animAmp s -> animPeriod s' = animPeriod s ->
  animFrameNumber s' = (animFrameNumber s + 720)%Z ->
  sineValue s' = sineValue s.
Proof.
  intros Ha Hp Hf. unfold sineValue, theta, umod. rewrite Ha, Hp, Hf.
  replace (animFrameNumber s + 720)%Z
    with (animFrameNumber s + 1 * 720)%Z by lia.
  rewrite Z_mod_plus_full. reflexivity.
Qed.

Lemma stepBoundsAnimation_animAmp : preserves animAmp stepBoundsAnimation.
Proof. frame. Qed.

Lemma stepBoundsAnimation_animPeriod :
  preserves animPeriod stepBoundsAnimation.
Proof. frame. Qed.

Lemma uwrap_small (z : Z) : (0 <= z <= UINT_MAX)%Z -> uwrap z = z.
Proof.
  intros H. unfold uwrap. apply Z.mod_small.
  unfold UINT_MAX in H. lia.
Qed.

Lemma times_stepBoundsAnimation_animFrameNumber (n : N) (s : Simulation) :
  (0 <= animFrameNumber s <= UINT_MAX)%Z ->
  animFrameNumber (exec (times n stepBoundsAnimation) s)
  = uwrap (animFrameNumber s + Z.of_N n).
Proof.
  intros H. induction n as [|n IH] using N.peano_ind.
  - rewrite times_0, Z.add_0_r. symmetry. apply uwrap_small, H.
  - rewrite times_succ, stepBoundsAnimation_animFrameNumber.
    rewrite IH, uwrap_uincr. f_equal. lia.
Qed.

End Sequences.

(** ** Exact arithmetic: basic facts *)

Section RealArithmetic.

Context {E : Env R}.

Local Open Scope R_scope.


Lemma Q2R_1 : Q2R 1 = 1.
Proof. unfold Q2R; simpl; lra. Qed.

Lemma Q2R_2 : Q2R 2 = 2.
Proof. unfold Q2R; simpl; lra. Qed.

Lemma Q2R_10 : Q2R 10 = 10.
Proof. unfold Q2R; simpl; lra. Qed.

Lemma Q2R_half : Q2R (1 # 2) = 1 / 2.
Proof. unfold Q2R; simpl; lra. Qed.

Lemma Q2R_quarter : Q2R (1 # 4) = 1 / 4.
Proof. unfold Q2R; simpl; lra. Qed.

Lemma Q2R_066 : Q2R (66 # 100) = 66 / 100.
Proof. unfold Q2R; simpl; lra. Qed.

Lemma fle_true (x y : R) : fle x y = true <-> x <= y.
Proof.
  cbn [fle RealOps]. destruct (Rle_dec x y); split; intros H;
    try reflexivity; try assumption; try discriminate; contradiction.
Qed.

Lemma fle_false (x y : R) : fle x y = false <-> y < x.
Proof.
  cbn [fle RealOps]. destruct (Rle_dec x y); split; intros H;
    try reflexivity; try discriminate; lra.
Qed.

Lemma Int_part_unique (r : R) (z : Z) :
  IZR z <= r < IZR z + 1 -> Int_part r = z.
Proof. intros H. symmetry. apply Int_part_spec. lra. Qed.

Lemma Int_part_bounds (r : R) : IZR (Int_part r) <= r < IZR (Int_part r) + 1.
Proof. destruct (base_Int_part r). lra. Qed.


(** ** The value subtracted from the upper X bound *)

Lemma maxXOffset_sine (s : Simulation) :
  animType s = SINE_WAVE -> maxXOffset s = sineValue s.
Proof.
  intros H. unfold maxXOffset.
  cbv beta iota zeta delta
    [stepBoundsAnimation exec bind gets modify when ret snd fst
     assignMaxX assignMinX].
  rewrite H. destruct (animBothSides s); cbn; lra.
Qed.


(** ** The sine wave *)

Lemma sineValue_unfold (s : Simulation) :
  sineValue s =
  animAmp s
  * sin (animPeriod s * PI
         * (IZR (animFrameNumber s mod 720) * (PI / 180))).
Proof. reflexivity. Qed.

(** C7 (amended).  With the sine wave, amplitude 10 and period 1, the
    offset is [10 * sin (pi * rad (f mod 720))] at animation frame [f], so
    it is [10 * sin 0 = 0] at frame 0, and two frame counts that differ by
    720 give the same offset.  The frame count is a 32-bit counter: from a
    frame [f <= 2^32 - 1 - 720] the counter is [f + 720] after 720 more
    calls and the offset is the one at frame [f] again.  (From a later
    frame the counter starts again from 0 on the way, and 2^32 is not a
    multiple of 720.) *)
Theorem sine_wave_offset (s : Simulation) :
  animType s = SINE_WAVE -> animAmp s = 10 -> animPeriod s = 1 ->
  maxXOffset s
  = 10 * sin (1 * PI * (IZR (animFrameNumber s mod 720) * (PI / 180))) /\
  (animFrameNumber s = 0%Z ->
   maxXOffset s = 10 * sin 0 /\ maxXOffset s = 0) /\
  (forall s' : Simulation,
     animType s' = SINE_WAVE ->
     animAmp s' = animAmp s -> animPeriod s' = animPeriod s ->
     animFrameNumber s' = (animFrameNumber s + 720)%Z ->
     maxXOffset s' = maxXOffset s) /\
  ((0 <= animFrameNumber s <= UINT_MAX - 720)%Z ->
   animFrameNumber (exec (times 720 stepBoundsAnimation) s)
   = (animFrameNumber s + 720)%Z /\
   maxXOffset (exec (times 720 stepBoundsAnimation) s) = maxXOffset s).
Proof.
  intros Ht Ha Hp.
  assert (Hper : forall s' : Simulation,
             animType s' = SINE_WAVE ->
             animAmp s' = animAmp s -> animPeriod s' = animPeriod s ->
             animFrameNumber s' = (animFrameNumber s + 720)%Z ->
             maxXOffset s' = maxXOffset s).
  { intros s' Ht' Ha' Hp' Hf'.
    rewrite (maxXOffset_sine s Ht), (maxXOffset_sine s' Ht').
    rewrite !sineValue_unfold, Ha', Hp', Hf'.
    replace (animFrameNumber s + 720)%Z
      with (animFrameNumber s + 1 * 720)%Z by lia.
    rewrite Z_mod_plus_full. reflexivity. }
  split; [| split; [| split; [exact Hper |]]].
  - rewrite (maxXOffset_sine s Ht), sineValue_unfold, Ha, Hp. reflexivity.
  - intros Hf. rewrite (maxXOffset_sine s Ht), sineValue_unfold.
    rewrite Ha, Hp, Hf. change (0 mod 720)%Z with 0%Z.
    replace (1 * PI * (0 * (PI / 180))) with 0 by lra.
    rewrite sin_0. split; lra.
  - intros Hf.
    assert (Hf' : animFrameNumber (exec (times 720 stepBoundsAnimation) s)
                  = (animFrameNumber s + 720)%Z).
    { rewrite times_stepBoundsAnimation_animFrameNumber by lia.
      apply uwrap_small. change (Z.of_N 720) with 720%Z. lia. }
    split; [exact Hf' |].
    apply Hper.
    + rewrite (preserves_times 720 stepBoundsAnimation_animType). exact Ht.
    + apply (preserves_times 720 stepBoundsAnimation_animAmp).
    + apply (preserves_times 720 stepBoundsAnimation_animPeriod).
    + exact Hf'.
Qed.

(** ** The linear ramp *)

Lemma tPeriod_unfold (s : Simulation) :
  tPeriod s = IZR (animFrameNumber s) / animPeriod s * dt s.
Proof. reflexivity. Qed.

Lemma rampValue_unfold (s : Simulation) :
  rampValue s =
  2 * animAmp s * (tPeriod s - IZR (Int_part (1 / 2 + tPeriod s))).
Proof.
  unfold rampValue. cbn [fmul fsub fadd ffloor flit RealOps].
  rewrite Q2R_2, Q2R_half. reflexivity.
Qed.


(** ** Compression *)

Lemma limitMaxX_unfold (s : Simulation) :
  limitMaxX s = origMaxX s - 33 / 100 * (origMaxX s - origMinX s).
Proof.
  unfold limitMaxX, halfLimit, limit, width.
  cbn [fmul fsub fadd flit RealOps]. rewrite Q2R_066, Q2R_half. lra.
Qed.

Lemma limitMinX_unfold (s : Simulation) :
  limitMinX s = origMinX s + 33 / 100 * (origMaxX s - origMinX s).
Proof.
  unfold limitMinX, halfLimit, limit, width.
  cbn [fmul fsub fadd flit RealOps]. rewrite Q2R_066, Q2R_half. lra.
Qed.

Lemma compress_maxX (s : Simulation) :
  animType s = COMPRESS ->
  vx (getMaxExtent (bounds (exec stepBoundsAnimation s))) =
  if fle (limitMaxX s) (vx (getMaxExtent (bounds s)))
  then vx (getMaxExtent (bounds s)) - 1 / 4
  else vx (getMaxExtent (bounds s)).
Proof.
  intros H.
  cbv beta iota zeta delta
    [stepBoundsAnimation exec bind gets modify when ret snd fst
     assignMaxX assignMinX].
  rewrite H. unfold getMinExtent, getMaxExtent.
  destruct (fle (limitMaxX s) (vx (maxV (bounds s))));
    cbn -[fle limitMinX]; destruct (animBothSides s);
    cbn -[fle limitMinX];
    destruct (fle (vx (minV (bounds s))) (limitMinX s)); cbn;
    rewrite ?Q2R_quarter; reflexivity.
Qed.

Lemma compress_minX (s : Simulation) :
  animType s = COMPRESS ->
  vx (getMinExtent (bounds (exec stepBoundsAnimation s))) =
  if (animBothSides s && fle (vx (getMinExtent (bounds s))) (limitMinX s))%bool
  then vx (getMinExtent (bounds s)) + 1 / 4
  else vx (getMinExtent (bounds s)).
Proof.
  intros H.
  cbv beta iota zeta delta
    [stepBoundsAnimation exec bind gets modify when ret snd fst
     assignMaxX assignMinX].
  rewrite H. unfold getMinExtent, getMaxExtent.
  destruct (fle (limitMaxX s) (vx (maxV (bounds s))));
    cbn -[fle limitMinX]; destruct (animBothSides s);
    cbn -[fle limitMinX];
    destruct (fle (vx (minV (bounds s))) (limitMinX s)); cbn;
    rewrite ?Q2R_quarter; reflexivity.
Qed.

(** C5 (amended).  Under [COMPRESS] the upper X bound never grows along a
    sequence of calls of [stepBoundsAnimation]: a call takes 0.25 off it
    while it is at or above [limitMaxX], which lies 0.33 of the original
    width below the original upper bound (0.67 of the width above the
    original lower bound), and leaves it alone once it is below.  With
    both sides enabled the lower X bound mirrors this: it gains 0.25 while
    it is at or below [limitMinX], 0.33 of the original width above the
    original lower bound; otherwise it stays. *)
Theorem compress_contracts (s : Simulation) (n : N) :
  animType s = COMPRESS ->
  limitMaxX s = origMaxX s - 33 / 100 * (origMaxX s - origMinX s) /\
  limitMinX s = origMinX s + 33 / 100 * (origMaxX s - origMinX s) /\
  (limitMaxX s <= boundsMaxX s ->
   boundsMaxX (exec stepBoundsAnimation s) = boundsMaxX s - 1 / 4) /\
  (boundsMaxX s < limitMaxX s ->
   boundsMaxX (exec stepBoundsAnimation s) = boundsMaxX s) /\
  (animBothSides s = true -> boundsMinX s <= limitMinX s ->
   boundsMinX (exec stepBoundsAnimation s) = boundsMinX s + 1 / 4) /\
  (animBothSides s = true -> limitMinX s < boundsMinX s ->
   boundsMinX (exec stepBoundsAnimation s) = boundsMinX s) /\
  (animBothSides s = false ->
   boundsMinX (exec stepBoundsAnimation s) = boundsMinX s) /\
  boundsMaxX (exec (times (N.succ n) stepBoundsAnimation) s)
    <= boundsMaxX (exec (times n stepBoundsAnimation) s) /\
  boundsMinX (exec (times n stepBoundsAnimation) s)
    <= boundsMinX (exec (times (N.succ n) stepBoundsAnimation) s).
Proof.
  intros Ht. unfold boundsMaxX, boundsMinX.
  split; [apply limitMaxX_unfold |].
  split; [apply limitMinX_unfold |].
  rewrite (compress_maxX s Ht), (compress_minX s Ht).
  split.
  { intros H. apply fle_true in H. rewrite H. reflexivity. }
  split.
  { intros H. apply fle_false in H. rewrite H. reflexivity. }
  split.
  { intros Hb H. apply fle_true in H. rewrite Hb, H. reflexivity. }
  split.
  { intros Hb H. apply fle_false in H. rewrite Hb, H. reflexivity. }
  split.
  { intros Hb. rewrite Hb. reflexivity. }
  rewrite !times_succ.
  set (t := exec (times n stepBoundsAnimation) s).
  assert (Ht' : animType t = COMPRESS).
  { unfold t. rewrite (preserves_times n stepBoundsAnimation_animType).
    exact Ht. }
  rewrite (compress_maxX t Ht'), (compress_minX t Ht').
  split.
  - destruct (fle (limitMaxX t) (vx (getMaxExtent (bounds t)))); lra.
  - destruct (animBothSides t
              && fle (vx (getMinExtent (bounds t))) (limitMinX t))%bool; lra.
Qed.

End RealArithmetic.

(** ** The initial particles *)

Section InitialParticles.

Context {F : Type} {FO : FloatOps F} {E : Env F}.

Local Open Scope list_scope.

Lemma set_nth_length A (v : A) (l : list A) : forall i,
  List.length (set_nth i v l) = List.length l.
Proof.
  induction l as [|a l IH]; intros [|i]; simpl; try reflexivity.
  rewrite IH. reflexivity.
Qed.

Lemma firstn_set_nth A (v : A) (l : list A) : forall i,
  (i < List.length l)%nat ->
  firstn (S i) (set_nth i v l) = firstn i l ++ [v].
Proof.
  induction l as [|a l IH]; intros [|i] H; simpl in *; try lia.
  - reflexivity.
  - f_equal. apply IH. lia.
Qed.

Lemma eval_random (lo hi : F) (s : Simulation) :
  eval (random lo hi) s = fst (ofRandom lo hi (randState s)).
Proof.
  unfold eval, random. destruct (ofRandom lo hi (randState s)). reflexivity.
Qed.

Lemma initParticle_particles (p1 p2 : Vec3 F) (radius : F) (i : Z)
    (s : Simulation) :
  exists p : Particle F,
    initialParticle p1 p2 radius p /\
    particles (exec (initParticle p1 p2 radius i) s)
    = set_nth (Z.to_nat i) p (particles s).
Proof.
  unfold initParticle. rewrite !exec_bind.
  cbn [exec modify snd set_particles particles].
  rewrite !(preserved (f := particles)) by frame.
  eexists. split; [| reflexivity].
  unfold initialParticle, drawnFrom. cbn [pos posStar vel vx vy vz].
  rewrite !eval_random. repeat split; eexists; reflexivity.
Qed.

Lemma for_from_initParticle (p1 p2 : Vec3 F) (radius : F) (k : nat) :
  forall (i : Z) (s : Simulation),
    (0 <= i)%Z ->
    List.length (particles s) = (Z.to_nat i + k)%nat ->
    Forall (initialParticle p1 p2 radius)
      (firstn (Z.to_nat i) (particles s)) ->
    let s' := exec (for_from i k (initParticle p1 p2 radius)) s in
    List.length (particles s') = (Z.to_nat i + k)%nat /\
    Forall (initialParticle p1 p2 radius) (particles s').
Proof.
  induction k as [|k IH]; intros i s Hi Hlen Hdone; cbn [for_from].
  - cbn. split; [exact Hlen |].
    rewrite Nat.add_0_r in Hlen. rewrite <- Hlen, firstn_all in Hdone.
    exact Hdone.
  - cbv zeta. rewrite exec_bind.
    destruct (initParticle_particles p1 p2 radius i s) as [p [Hp Eq]].
    assert (Hnext : Z.to_nat (i + 1) = S (Z.to_nat i)).
    { rewrite Z2Nat.inj_add by lia. simpl. lia. }
    destruct (IH (i + 1)%Z (exec (initParticle p1 p2 radius i) s))
      as [Hlen' Hall].
    + lia.
    + rewrite Eq, set_nth_length, Hlen, Hnext. lia.
    + rewrite Eq, Hnext, firstn_set_nth by lia.
      apply Forall_app. split; [exact Hdone | constructor; [exact Hp | constructor]].
    + split; [| exact Hall]. rewrite Hlen', Hnext. lia.
Qed.

Lemma initializeBuffers_loop (s : Simulation) :
  exists s0 : Simulation,
    particles s0 = repeat uninitParticle (Z.to_nat (numParticles s)) /\
    exec initializeBuffers s
    = exec (for_upto (numParticles s)
              (initParticle (getMinExtent (bounds s))
                 (getMaxExtent (bounds s))
                 (particleRadius (parameters s)))) s0.
Proof.
  unfold initializeBuffers. cbv zeta. rewrite !exec_bind.
  eexists. split; [| reflexivity]. reflexivity.
Qed.

Lemma initializeBuffers_particles (s : Simulation) :
  List.length (particles (exec initializeBuffers s))
    = Z.to_nat (numParticles s) /\
  Forall (initialParticle (getMinExtent (bounds s))
            (getMaxExtent (bounds s)) (particleRadius (parameters s)))
    (particles (exec initializeBuffers s)).
Proof.
  destruct (initializeBuffers_loop s) as [s0 [Hs0 ->]].
  unfold for_upto.
  apply (@for_from_initParticle (getMinExtent (bounds s))
           (getMaxExtent (bounds s)) (particleRadius (parameters s))
           (Z.to_nat (numParticles s)) 0%Z s0).
  - lia.
  - rewrite Hs0, repeat_length. reflexivity.
  - constructor.
Qed.

Lemma initialize_particles (s : Simulation) :
  particles (exec initialize s) = particles (exec initializeBuffers s).
Proof.
  unfold initialize. rewrite !exec_bind.
  rewrite !(preserved (f := particles)) by frame. reflexivity.
Qed.

(** *** The loop as a function of the generator *)






End InitialParticles.

(** ** Newly constructed objects *)

Section Construction.

Context {F : Type} {FO : FloatOps F} {E : Env F}.

Lemma constructWithGrid_frameNumber cl g b n d c p :
  frameNumber (constructWithGrid cl g b n d c p) = 0%Z.
Proof. unfold constructWithGrid. rewrite preserved by frame. reflexivity. Qed.

Lemma constructWithGrid_animFrameNumber cl g b n d c p :
  animFrameNumber (constructWithGrid cl g b n d c p) = 0%Z.
Proof. unfold constructWithGrid. rewrite preserved by frame. reflexivity. Qed.

Lemma constructWithGrid_animBounds cl g b n d c p :
  animBounds (constructWithGrid cl g b n d c p) = false.
Proof. unfold constructWithGrid. rewrite preserved by frame. reflexivity. Qed.

Lemma constructWithGrid_animBothSides cl g b n d c p :
  animBothSides (constructWithGrid cl g b n d c p) = false.
Proof. unfold constructWithGrid. rewrite preserved by frame. reflexivity. Qed.

Lemma constructWithGrid_animType cl g b n d c p :
  animType (constructWithGrid cl g b n d c p) = SINE_WAVE.
Proof. unfold constructWithGrid. rewrite preserved by frame. reflexivity. Qed.

Lemma constructWithGrid_animAmp cl g b n d c p :
  animAmp (constructWithGrid cl g b n d c p) = flit 10.
Proof. unfold constructWithGrid. rewrite preserved by frame. reflexivity. Qed.

Lemma constructWithGrid_animPeriod cl g b n d c p :
  animPeriod (constructWithGrid cl g b n d c p) = flit 1.
Proof. unfold constructWithGrid. rewrite preserved by frame. reflexivity. Qed.


Lemma constructWithGrid_bounds cl g b n d c p :
  bounds (constructWithGrid cl g b n d c p) = b.
Proof. unfold constructWithGrid. rewrite preserved by frame. reflexivity. Qed.

Lemma constructWithGrid_originalBounds cl g b n d c p :
  originalBounds (constructWithGrid cl g b n d c p) = b.
Proof. unfold constructWithGrid. rewrite preserved by frame. reflexivity. Qed.

Lemma constructWithGrid_numParticles cl g b n d c p :
  numParticles (constructWithGrid cl g b n d c p) = n.
Proof. unfold constructWithGrid. rewrite preserved by frame. reflexivity. Qed.

Lemma constructWithGrid_parameters cl g b n d c p :
  parameters (constructWithGrid cl g b n d c p) = p.
Proof. unfold constructWithGrid. rewrite preserved by frame. reflexivity. Qed.

Lemma step_in_range (s : Simulation) :
  (0 <= frameNumber (exec step s) <= UINT_MAX)%Z.
Proof. rewrite step_frameNumber. apply uwrap_range. Qed.

Lemma times_step_frameNumber (n : N) (s : Simulation) :
  (0 <= frameNumber s <= UINT_MAX)%Z ->
  frameNumber (exec (times n step) s) = uwrap (frameNumber s + Z.of_N n).
Proof.
  intros H. induction n as [|n IH] using N.peano_ind.
  - rewrite times_0, Z.add_0_r. unfold uwrap.
    symmetry. apply Z.mod_small. unfold UINT_MAX in H. lia.
  - rewrite times_succ, step_frameNumber, IH, uwrap_uincr.
    f_equal. lia.
Qed.

Lemma times_step_animBounds (n : N) : preserves animBounds (times n step).
Proof. apply preserves_times, step_animBounds. Qed.

Lemma times_step_animFrameNumber (n : N) (s : Simulation) :
  animBounds s = true ->
  (0 <= animFrameNumber s <= UINT_MAX)%Z ->
  animFrameNumber (exec (times n step) s)
  = uwrap (animFrameNumber s + Z.of_N n).
Proof.
  intros Hb H. induction n as [|n IH] using N.peano_ind.
  - rewrite times_0, Z.add_0_r. unfold uwrap.
    symmetry. apply Z.mod_small. unfold UINT_MAX in H. lia.
  - rewrite times_succ, step_animFrameNumber, times_step_animBounds, Hb.
    rewrite IH, uwrap_uincr. f_equal. lia.
Qed.

Lemma reachable_times_step (b0 : AABB F) (n : N) (s : Simulation) :
  reachable b0 s -> reachable b0 (exec (times n step) s).
Proof.
  intros H. induction n as [|n IH] using N.peano_ind.
  - rewrite times_0. exact H.
  - rewrite times_succ. apply (reach_call CallStep), IH.
Qed.

End Construction.

(** ** The sample objects *)

Lemma sampleSim_reachable : reachable sampleBounds sampleSim.
Proof. unfold sampleSim. apply reach_constructWithGrid. Qed.

Lemma sampleSim_frameNumber : frameNumber sampleSim = 0%Z.
Proof. unfold sampleSim. apply constructWithGrid_frameNumber. Qed.

Lemma sampleSim_animFrameNumber : animFrameNumber sampleSim = 0%Z.
Proof. unfold sampleSim. apply constructWithGrid_animFrameNumber. Qed.

Lemma sampleSim_frameNumber_range :
  (0 <= frameNumber sampleSim <= UINT_MAX)%Z.
Proof. rewrite sampleSim_frameNumber. split; discriminate. Qed.

Lemma lastFrameSim_frameNumber : frameNumber lastFrameSim = UINT_MAX.
Proof.
  unfold lastFrameSim.
  rewrite times_step_frameNumber by exact sampleSim_frameNumber_range.
  rewrite sampleSim_frameNumber. reflexivity.
Qed.

Lemma animatedSim_animFrameNumber :
  animFrameNumber (exec enableBoundsAnimation sampleSim) = 0%Z.
Proof. rewrite preserved by frame. apply sampleSim_animFrameNumber. Qed.

Lemma animatedSim_range :
  (0 <= animFrameNumber (exec enableBoundsAnimation sampleSim)
   <= UINT_MAX)%Z.
Proof. rewrite animatedSim_animFrameNumber. split; discriminate. Qed.

Lemma lastAnimFrameSim_animFrameNumber :
  animFrameNumber lastAnimFrameSim = UINT_MAX.
Proof.
  unfold lastAnimFrameSim.
  rewrite times_step_animFrameNumber;
    [| reflexivity | exact animatedSim_range].
  rewrite animatedSim_animFrameNumber. reflexivity.
Qed.

Lemma eval_getFrameNumber (s : @Simulation R SampleEnv) :
  eval getFrameNumber s = frameNumber s.
Proof. reflexivity. Qed.

Lemma sampleSim_animFrameNumber_range :
  (0 <= animFrameNumber sampleSim <= UINT_MAX)%Z.
Proof. rewrite sampleSim_animFrameNumber. split; discriminate. Qed.

Lemma sampleSim_animType : animType sampleSim = SINE_WAVE.
Proof. unfold sampleSim. apply constructWithGrid_animType. Qed.

Lemma sampleSim_animAmp : animAmp sampleSim = 10%R.
Proof.
  unfold sampleSim. rewrite constructWithGrid_animAmp. apply Q2R_10.
Qed.

Lemma sampleSim_animPeriod : animPeriod sampleSim = 1%R.
Proof.
  unfold sampleSim. rewrite constructWithGrid_animPeriod. apply Q2R_1.
Qed.

(** *** Witnesses and counterexamples for the counters *)

(** The wrapping statement of C2 at the sample object. *)
Lemma step_frameNumber_wrapping_witness :
  (0 <= frameNumber sampleSim <= UINT_MAX)%Z /\
  (eval step sampleSim = tt /\
   eval getFrameNumber (exec step sampleSim) =
   if (eval getFrameNumber sampleSim =? UINT_MAX)%Z then 0%Z
   else (eval getFrameNumber sampleSim + 1)%Z).
Proof.
  split.
  - exact sampleSim_frameNumber_range.
  - apply step_frameNumber_wrapping. exact sampleSim_frameNumber_range.
Defined.

(** C2 as stated fails after 4294967295 steps: the counter holds
    4294967295, and one more step leaves 0, not 4294967296. *)
Lemma step_frameNumber_wraps :
  eval getFrameNumber lastFrameSim = 4294967295%Z /\
  eval getFrameNumber (exec step lastFrameSim) = 0%Z /\
  eval getFrameNumber (exec step lastFrameSim)
    <> (eval getFrameNumber lastFrameSim + 1)%Z.
Proof.
  rewrite !eval_getFrameNumber, step_frameNumber, lastFrameSim_frameNumber.
  repeat split. discriminate.
Qed.

(** The statement of C3 at the sample object. *)
Lemma reset_restores_bounds_keeps_sizes_witness :
  reachable sampleBounds sampleSim /\
  (eval getBounds (exec reset sampleSim) = sampleBounds /\
   numParticles (exec reset sampleSim) = numParticles sampleSim /\
   cellsPerAxis (exec reset sampleSim) = cellsPerAxis sampleSim /\
   numCells (exec reset sampleSim) = numCells sampleSim).
Proof.
  split.
  - exact sampleSim_reachable.
  - apply reset_restores_bounds_keeps_sizes. exact sampleSim_reachable.
Defined.

(** The wrapping statement of C9 at the sample object. *)
Lemma animFrameNumber_wrapping_witness :
  (0 <= animFrameNumber sampleSim <= UINT_MAX)%Z /\
  (animFrameNumber (exec resetBounds sampleSim) = 0%Z /\
   animFrameNumber (exec reset sampleSim) = 0%Z /\
   animFrameNumber (exec stepBoundsAnimation sampleSim) =
     (if (animFrameNumber sampleSim =? UINT_MAX)%Z then 0%Z
      else (animFrameNumber sampleSim + 1)%Z) /\
   ((animFrameNumber sampleSim < UINT_MAX)%Z ->
    (animFrameNumber sampleSim
     < animFrameNumber (exec stepBoundsAnimation sampleSim))%Z)).
Proof.
  split.
  - exact sampleSim_animFrameNumber_range.
  - apply animFrameNumber_wrapping. exact sampleSim_animFrameNumber_range.
Defined.

(** C9 as stated fails after 4294967295 animated steps: the animation
    counter holds 4294967295 and the next call of [stepBoundsAnimation]
    leaves 0, which is neither one more nor larger. *)
Lemma animFrameNumber_wraps :
  animFrameNumber lastAnimFrameSim = 4294967295%Z /\
  animFrameNumber (exec stepBoundsAnimation lastAnimFrameSim) = 0%Z /\
  animFrameNumber (exec stepBoundsAnimation lastAnimFrameSim)
    <> (animFrameNumber lastAnimFrameSim + 1)%Z /\
  ~ (animFrameNumber lastAnimFrameSim
     < animFrameNumber (exec stepBoundsAnimation lastAnimFrameSim))%Z.
Proof.
  rewrite stepBoundsAnimation_animFrameNumber,
    lastAnimFrameSim_animFrameNumber.
  repeat split; discriminate.
Qed.

(** The statement of C10 at the sample object: the raised box is
    installed, a step is taken, and either reset brings the sample box
    back. *)
Lemma setBounds_keeps_originalBounds_witness :
  reachable sampleBounds sampleSim /\
  (exec (setBounds raisedBounds) sampleSim = set_bounds raisedBounds sampleSim /\
   originalBounds (exec (setBounds raisedBounds) sampleSim)
     = originalBounds sampleSim /\
   originalBounds sampleSim = sampleBounds /\
   bounds (exec resetBounds
             (exec (runCalls [CallStep])
                (exec (setBounds raisedBounds) sampleSim))) = sampleBounds /\
   bounds (exec reset
             (exec (runCalls [CallStep])
                (exec (setBounds raisedBounds) sampleSim))) = sampleBounds).
Proof.
  split.
  - exact sampleSim_reachable.
  - apply setBounds_keeps_originalBounds. exact sampleSim_reachable.
Defined.

(** *** The sine wave at the sample object *)

(** The statement of C7 at the sample object, which is built with the
    sine wave, amplitude 10 and period 1, at frame 0. *)
Lemma sine_wave_offset_witness :
  (animType sampleSim = SINE_WAVE /\ animAmp sampleSim = 10%R /\
   animPeriod sampleSim = 1%R) /\
  maxXOffset sampleSim = 0%R /\
  animFrameNumber (exec (times 720 stepBoundsAnimation) sampleSim) = 720%Z /\
  maxXOffset (exec (times 720 stepBoundsAnimation) sampleSim) = 0%R.
Proof.
  split.
  { split; [exact sampleSim_animType |].
    split; [exact sampleSim_animAmp | exact sampleSim_animPeriod]. }
  destruct (@sine_wave_offset SampleEnv sampleSim sampleSim_animType
              sampleSim_animAmp sampleSim_animPeriod)
    as [_ [H0 [_ H720]]].
  destruct (H0 sampleSim_animFrameNumber) as [_ Hz].
  assert (Hr : (0 <= animFrameNumber sampleSim <= UINT_MAX - 720)%Z).
  { rewrite sampleSim_animFrameNumber. split; discriminate. }
  destruct (H720 Hr) as [Hf Ho].
  split; [exact Hz |].
  split; [rewrite Hf, sampleSim_animFrameNumber; reflexivity |].
  rewrite Ho. exact Hz.
Defined.

(** *** The sine wave across the wrap of the counter *)

Lemma PI_below : (PI <= 52 / 15)%R.
Proof.
  destruct (PI_ineq 1) as [_ H].
  unfold sum_f_R0, tg_alt, PI_tg in H. simpl in H. lra.
Qed.

Lemma PI_above : (3 < PI)%R.
Proof. pose proof PI2_3_2. lra. Qed.

(** [pi * rad 256] lies between [4 * pi] and [5 * pi]. *)
Lemma sin_phase_256 : (0 < sin (1 * PI * (256 * (PI / 180))))%R.
Proof.
  pose proof PI_below as Hu. pose proof PI_above as Hl.
  replace (1 * PI * (256 * (PI / 180)))%R
    with ((PI * (64 * PI / 45 - 4)) + 2 * INR 2 * PI)%R by (simpl; field).
  rewrite sin_period. apply sin_gt_0; nra.
Qed.

Lemma wrapSim_reachable : reachable sampleBounds wrapSim.
Proof.
  unfold wrapSim. apply reachable_times_step.
  apply (reach_call CallEnableBoundsAnimation), sampleSim_reachable.
Qed.

Lemma wrapSim_settings :
  animType wrapSim = SINE_WAVE /\ animAmp wrapSim = 10%R /\
  animPeriod wrapSim = 1%R.
Proof.
  unfold wrapSim.
  rewrite (preserves_times (f := animType) _ (m := step)) by frame.
  rewrite (preserves_times (f := animAmp) _ (m := step)) by frame.
  rewrite (preserves_times (f := animPeriod) _ (m := step)) by frame.
  rewrite !preserved by frame.
  split; [exact sampleSim_animType |].
  split; [exact sampleSim_animAmp | exact sampleSim_animPeriod].
Qed.

Lemma wrapSim_animFrameNumber : animFrameNumber wrapSim = 4294966576%Z.
Proof.
  unfold wrapSim.
  rewrite times_step_animFrameNumber;
    [| reflexivity | exact animatedSim_range].
  rewrite animatedSim_animFrameNumber. reflexivity.
Qed.

(** C7 as stated fails.  The sample object with the animation enabled
    reaches animation frame 4294966576 = 2^32 - 720.  After 720 more
    frames its counter is 0 and the offset is 0, while the offset at frame
    4294966576, whose remainder modulo 720 is 256, is
    [10 * sin (pi * rad 256)], which is positive. *)
Lemma sine_wave_not_periodic_across_wrap :
  reachable sampleBounds wrapSim /\
  (animType wrapSim = SINE_WAVE /\ animAmp wrapSim = 10%R /\
   animPeriod wrapSim = 1%R) /\
  animFrameNumber wrapSim = 4294966576%Z /\
  animFrameNumber (exec (times 720 stepBoundsAnimation) wrapSim) = 0%Z /\
  maxXOffset (exec (times 720 stepBoundsAnimation) wrapSim) = 0%R /\
  (0 < maxXOffset wrapSim)%R /\
  maxXOffset (exec (times 720 stepBoundsAnimation) wrapSim)
    <> maxXOffset wrapSim.
Proof.
  destruct wrapSim_settings as [Ht [Ha Hp]].
  pose proof wrapSim_animFrameNumber as Hw.
  pose proof wrapSim_reachable as Hreach.
  assert (Hf : animFrameNumber
                 (exec (times 720 stepBoundsAnimation) wrapSim) = 0%Z).
  { rewrite times_stepBoundsAnimation_animFrameNumber, Hw; [reflexivity |].
    rewrite Hw. split; discriminate. }
  assert (Ht' : animType (exec (times 720 stepBoundsAnimation) wrapSim)
                = SINE_WAVE).
  { rewrite (preserves_times 720 stepBoundsAnimation_animType). exact Ht. }
  remember (exec (times 720 stepBoundsAnimation) wrapSim) as late eqn:El.
  clear El.
  remember wrapSim as early eqn:Ee. clear Ee.
  assert (Hlate : maxXOffset late = 0%R).
  { rewrite (maxXOffset_sine late Ht'), sineValue_unfold, Hf.
    change (0 mod 720)%Z with 0%Z.
    replace (animPeriod late * PI * (0 * (PI / 180)))%R with 0%R by lra.
    rewrite sin_0. lra. }
  assert (Hearly : (0 < maxXOffset early)%R).
  { rewrite (maxXOffset_sine early Ht), sineValue_unfold.
    rewrite Ha, Hp, Hw.
    change (4294966576 mod 720)%Z with 256%Z.
    pose proof sin_phase_256. lra. }
  split; [exact Hreach |].
  split; [split; [exact Ht | split; [exact Ha | exact Hp]] |].
  split; [exact Hw |].
  split; [exact Hf |].
  split; [exact Hlate |].
  split; [exact Hearly |].
  rewrite Hlate. lra.
Qed.

(** *** Compression of the sample box *)

Lemma compressSim_animType : animType compressSim = COMPRESS.
Proof. reflexivity. Qed.

Lemma compressSim_bounds : bounds compressSim = sampleBounds.
Proof.
  unfold compressSim. rewrite preserved by frame.
  unfold sampleSim. apply constructWithGrid_bounds.
Qed.

Lemma compressSim_originalBounds : originalBounds compressSim = sampleBounds.
Proof.
  unfold compressSim. rewrite preserved by frame.
  unfold sampleSim. apply constructWithGrid_originalBounds.
Qed.

Lemma compress_run_animType (k : N) :
  animType (exec (times k stepBoundsAnimation) compressSim) = COMPRESS.
Proof.
  rewrite (preserves_times k stepBoundsAnimation_animType).
  exact compressSim_animType.
Qed.

Lemma compress_run_originalBounds (k : N) :
  originalBounds (exec (times k stepBoundsAnimation) compressSim)
  = sampleBounds.
Proof.
  rewrite (preserves_times k stepBoundsAnimation_originalBounds).
  exact compressSim_originalBounds.
Qed.

Lemma compress_run_limitMaxX (k : N) :
  limitMaxX (exec (times k stepBoundsAnimation) compressSim) = 201%R.
Proof.
  rewrite limitMaxX_unfold. unfold origMaxX, origMinX.
  rewrite compress_run_originalBounds. cbn. lra.
Qed.

(** The first 397 calls each take 0.25 off the upper X bound. *)
Lemma compress_run_maxX (k : N) :
  (k <= 397)%N ->
  vx (getMaxExtent (bounds (exec (times k stepBoundsAnimation) compressSim)))
  = (300 - IZR (Z.of_N k) / 4)%R.
Proof.
  induction k as [|k IH] using N.peano_ind; intros Hk.
  - rewrite times_0, compressSim_bounds. cbn. lra.
  - rewrite times_succ, compress_maxX by apply compress_run_animType.
    rewrite compress_run_limitMaxX, IH by lia.
    assert (Hle : (IZR (Z.of_N k) <= 396)%R).
    { apply IZR_le. lia. }
    assert (Hf : fle 201%R (300 - IZR (Z.of_N k) / 4)%R = true).
    { apply fle_true. lra. }
    rewrite Hf, N2Z.inj_succ, succ_IZR. lra.
Qed.

(** The statement of C5 at the sample object switched to [COMPRESS],
    for the sixth call. *)
Lemma compress_contracts_witness :
  animType compressSim = COMPRESS /\
  (limitMaxX compressSim
   = origMaxX compressSim
     - 33 / 100 * (origMaxX compressSim - origMinX compressSim) /\
   limitMinX compressSim
   = origMinX compressSim
     + 33 / 100 * (origMaxX compressSim - origMinX compressSim) /\
   (limitMaxX compressSim <= boundsMaxX compressSim ->
    boundsMaxX (exec stepBoundsAnimation compressSim)
    = boundsMaxX compressSim - 1 / 4) /\
   (boundsMaxX compressSim < limitMaxX compressSim ->
    boundsMaxX (exec stepBoundsAnimation compressSim)
    = boundsMaxX compressSim) /\
   (animBothSides compressSim = true ->
    boundsMinX compressSim <= limitMinX compressSim ->
    boundsMinX (exec stepBoundsAnimation compressSim)
    = boundsMinX compressSim + 1 / 4) /\
   (animBothSides compressSim = true ->
    limitMinX compressSim < boundsMinX compressSim ->
    boundsMinX (exec stepBoundsAnimation compressSim)
    = boundsMinX compressSim) /\
   (animBothSides compressSim = false ->
    boundsMinX (exec stepBoundsAnimation compressSim)
    = boundsMinX compressSim) /\
   boundsMaxX (exec (times (N.succ 5) stepBoundsAnimation) compressSim)
   <= boundsMaxX (exec (times 5 stepBoundsAnimation) compressSim) /\
   boundsMinX (exec (times 5 stepBoundsAnimation) compressSim)
   <= boundsMinX (exec (times (N.succ 5) stepBoundsAnimation) compressSim))%R.
Proof.
  split.
  - exact compressSim_animType.
  - apply compress_contracts. exact compressSim_animType.
Defined.

(** C5 as stated fails on the sample box, whose original width is 300:
    after 397 calls the upper X bound is 200.75, at or above two thirds
    of the original width (200), and the next call does not move it. *)
Lemma compress_floor_not_two_thirds :
  let s := exec (times 397 stepBoundsAnimation) compressSim in
  animType s = COMPRESS /\
  boundsMaxX s = (803 / 4)%R /\
  (origMinX s + 2 / 3 * (origMaxX s - origMinX s))%R = 200%R /\
  (origMinX s + 2 / 3 * (origMaxX s - origMinX s) <= boundsMaxX s)%R /\
  boundsMaxX (exec stepBoundsAnimation s) = boundsMaxX s.
Proof.
  cbv zeta. unfold boundsMaxX.
  assert (Hm : vx (getMaxExtent
                     (bounds (exec (times 397 stepBoundsAnimation)
                                compressSim))) = (803 / 4)%R).
  { rewrite compress_run_maxX by discriminate.
    change (Z.of_N 397) with 397%Z. lra. }
  assert (Ho : (origMinX (exec (times 397 stepBoundsAnimation) compressSim)
                + 2 / 3
                  * (origMaxX (exec (times 397 stepBoundsAnimation)
                                 compressSim)
                     - origMinX (exec (times 397 stepBoundsAnimation)
                                   compressSim)))%R = 200%R).
  { unfold origMaxX, origMinX. rewrite compress_run_originalBounds.
    cbn. lra. }
  split; [apply compress_run_animType |].
  split; [exact Hm |].
  split; [exact Ho |].
  split; [rewrite Ho, Hm; lra |].
  rewrite compress_maxX by apply compress_run_animType.
  rewrite compress_run_limitMaxX, Hm.
  assert (Hf : fle 201%R (803 / 4)%R = false).
  { apply fle_false. lra. }
  rewrite Hf. reflexivity.
Qed.

(** *** The linear ramp at the sample object *)
















(** *** The initial particles of the sample objects *)

Lemma raisedSim_bounds : bounds raisedSim = raisedBounds.
Proof. unfold raisedSim. apply constructWithGrid_bounds. Qed.





(** * Further properties of the driver *)

(** ** The commands of one step *)

Section StepCommands.

Context {F : Type} {FO : FloatOps F} {E : Env F}.

Local Open Scope list_scope.

(** A method that only talks to the device: the state it leaves is the
    state it found with [cs] appended to the commands. *)
Lemma send_exec (c : Command F Parameters) (s : Simulation) :
  exec (send c) s = set_openCL (openCL s ++ [c]) s.
Proof. reflexivity. Qed.

Lemma set_openCL_twice (v w : list (Command F Parameters)) (s : Simulation) :
  set_openCL v (set_openCL w s) = set_openCL v s.
Proof. reflexivity. Qed.

Lemma runWithBounds_exec k i j (s : Simulation) :
  exec (runWithBounds k i j) s
  = set_openCL (openCL s ++ boundCommands s k i j) s.
Proof.
  unfold runWithBounds, setArg, run1D, boundCommands.
  rewrite !exec_bind, !send_exec.
  cbn -[app]. rewrite <- !app_assoc. reflexivity.
Qed.

Lemma resetQuantities_exec (s : Simulation) :
  exec resetQuantities s
  = set_openCL
      (openCL s ++ [Run1D "resetParticleQuantities" (numParticles s);
                    Run1D "resetCellQuantities" (numCells s)]) s.
Proof.
  unfold resetQuantities, run1D. rewrite !exec_bind, !send_exec.
  cbn -[app]. rewrite <- !app_assoc. reflexivity.
Qed.

Lemma predictPositions_exec (s : Simulation) :
  exec predictPositions s
  = set_openCL (openCL s ++ [Run1D "predictPosition" (numParticles s)]) s.
Proof. reflexivity. Qed.

Lemma sortParticlesByCell_exec (s : Simulation) :
  exec sortParticlesByCell s
  = set_openCL
      (openCL s ++ [Scan "cellPrefixSums" "cellHistogram" (numCells s);
                    Run1D "countSortParticlesByCell" (numParticles s);
                    Run1D "findParticleBins" (numParticles s)]) s.
Proof.
  unfold sortParticlesByCell, run1D. rewrite !exec_bind, !send_exec.
  cbn -[app]. rewrite <- !app_assoc. reflexivity.
Qed.

Lemma before_exec (s : Simulation) :
  exec findNeighboringParticles
    (exec predictPositions (exec resetQuantities s))
  = set_openCL (openCL s ++ commandsBefore s) s.
Proof.
  unfold findNeighboringParticles, discretizeParticlePositions.
  rewrite exec_bind, resetQuantities_exec, predictPositions_exec,
    runWithBounds_exec, sortParticlesByCell_exec.
  unfold commandsBefore, boundCommands.
  cbn -[app]. rewrite <- !app_assoc. reflexivity.
Qed.

Lemma solverIteration_exec (s : Simulation) :
  exec solverIteration s = set_openCL (openCL s ++ iterationCommands s) s.
Proof.
  unfold solverIteration, calculateDensity, calculatePositionDelta,
    updatePositionDelta, run1D.
  rewrite !exec_bind, !runWithBounds_exec, send_exec.
  unfold iterationCommands, boundCommands.
  cbn -[app]. rewrite <- !app_assoc. reflexivity.
Qed.

Lemma solverLoop_exec (n : nat) : forall (i : Z) (s : Simulation),
  exec (for_from i n (fun _ => solverIteration)) s
  = set_openCL
      (openCL s ++ List.concat (repeat (iterationCommands s) n)) s.
Proof.
  induction n as [|n IH]; intros i s; cbn [for_from repeat List.concat].
  - destruct s; cbn. rewrite app_nil_r. reflexivity.
  - rewrite exec_bind, IH, solverIteration_exec.
    cbn -[app iterationCommands List.concat]. rewrite <- app_assoc.
    reflexivity.
Qed.

Lemma updatePosition_exec (s : Simulation) :
  exec updatePosition s
  = set_openCL
      (openCL s ++ boundCommands s "computeCurl" 8 9
         ++ boundCommands s "updatePosition" 10 11) s.
Proof.
  unfold updatePosition. rewrite exec_bind, !runWithBounds_exec.
  unfold boundCommands. cbn -[app]. rewrite <- !app_assoc. reflexivity.
Qed.

(** The state in which the kernels of a step have been dispatched and the
    queue has been drained. *)
Lemma kernels_exec (s : Simulation) :
  exec (send Finish)
    (exec updatePosition
       (exec (for_upto SOLVER_ITERATIONS (fun _ => solverIteration))
          (exec findNeighboringParticles
             (exec predictPositions (exec resetQuantities s)))))
  = set_openCL (openCL s ++ stepCommands s) s.
Proof.
  rewrite before_exec. unfold for_upto.
  rewrite solverLoop_exec, updatePosition_exec, send_exec.
  unfold stepCommands, commandsAfter, boundCommands, iterationCommands.
  cbn -[app List.concat repeat]. rewrite <- !app_assoc. reflexivity.
Qed.

Lemma step_openCL (s : Simulation) :
  openCL (exec step s) = openCL s ++ stepCommands s.
Proof.
  unfold step. cbv zeta. rewrite !exec_bind.
  rewrite !(preserved (f := openCL)) by frame.
  rewrite kernels_exec. reflexivity.
Qed.

Lemma issued_app A (m : M A) (s : Simulation) cs :
  openCL (exec m s) = openCL s ++ cs -> issued m s = cs.
Proof.
  intros H. unfold issued.
  rewrite H, skipn_app, skipn_all, Nat.sub_diag. reflexivity.
Qed.

Lemma step_issued (s : Simulation) : issued step s = stepCommands s.
Proof. apply issued_app, step_openCL. Qed.

(** X1.  The commands one step sends are: the two reset kernels and the
    prediction, the grid construction, [SOLVER_ITERATIONS] rounds of the
    solver kernels, the curl and the position update, and a final
    [finish].  Every kernel runs over [numParticles] work items, except
    [resetCellQuantities] (and the scan) over [numCells]; every kernel
    that takes the bounds has both extents rebound, just before it runs,
    to the bounds the step was entered with. *)
Theorem step_commands (s : Simulation) :
  openCL (exec step s) = openCL s ++ stepCommands s /\
  issued step s = stepCommands s.
Proof. split; [apply step_openCL | apply step_issued]. Qed.

(** ** What a step does not do *)

Lemma in_concat_repeat A (x : A) (l : list A) (n : nat) :
  In x (List.concat (repeat l n)) -> In x l.
Proof.
  induction n as [|n IH]; cbn [repeat List.concat]; intros H.
  - destruct H.
  - apply in_app_or in H. destruct H as [H | H]; [exact H | exact (IH H)].
Qed.

Lemma loaded_app (xs ys : list (Command F Parameters)) :
  loaded (xs ++ ys) = loaded xs ++ loaded ys.
Proof. apply flat_map_app. Qed.

Lemma loaded_concat_repeat (l : list (Command F Parameters)) (n : nat) :
  loaded l = [] -> loaded (List.concat (repeat l n)) = [].
Proof.
  intros H. induction n as [|n IH]; cbn [repeat List.concat].
  - reflexivity.
  - rewrite loaded_app, H, IH. reflexivity.
Qed.

Lemma lastParameters_app (xs ys : list (Command F Parameters)) :
  lastParameters (xs ++ ys)
  = match lastParameters ys with
    | Some p => Some p
    | None => lastParameters xs
    end.
Proof.
  induction xs as [|c xs IH]; cbn [app lastParameters].
  - destruct (lastParameters ys); reflexivity.
  - rewrite IH. destruct (lastParameters ys); reflexivity.
Qed.

Lemma lastParticles_app (xs ys : list (Command F Parameters)) :
  lastParticles (xs ++ ys)
  = match lastParticles ys with
    | Some ps => Some ps
    | None => lastParticles xs
    end.
Proof.
  induction xs as [|c xs IH]; cbn [app lastParticles].
  - destruct (lastParticles ys); reflexivity.
  - rewrite IH. destruct (lastParticles ys); reflexivity.
Qed.

Lemma lastParameters_concat_repeat (l : list (Command F Parameters)) n :
  lastParameters l = None ->
  lastParameters (List.concat (repeat l n)) = None.
Proof.
  intros H. induction n as [|n IH]; cbn [repeat List.concat].
  - reflexivity.
  - rewrite lastParameters_app, IH. exact H.
Qed.

Lemma lastParticles_concat_repeat (l : list (Command F Parameters)) n :
  lastParticles l = None ->
  lastParticles (List.concat (repeat l n)) = None.
Proof.
  intros H. induction n as [|n IH]; cbn [repeat List.concat].
  - reflexivity.
  - rewrite lastParticles_app, IH. exact H.
Qed.

Lemma stepCommands_loaded (s : Simulation) : loaded (stepCommands s) = [].
Proof.
  unfold stepCommands. rewrite !loaded_app, loaded_concat_repeat;
    reflexivity.
Qed.

Lemma stepCommands_lastParameters (s : Simulation) :
  lastParameters (stepCommands s) = None.
Proof.
  unfold stepCommands.
  rewrite !lastParameters_app, lastParameters_concat_repeat; reflexivity.
Qed.

Lemma stepCommands_lastParticles (s : Simulation) :
  lastParticles (stepCommands s) = None.
Proof.
  unfold stepCommands.
  rewrite !lastParticles_app, lastParticles_concat_repeat; reflexivity.
Qed.

(** X2.  A step never runs the collision kernel ([handleCollisions] is
    commented out of the loop) nor the two debugging kernels, loads no
    program or kernel, and uploads neither parameters nor particles. *)
Theorem step_never (s : Simulation) :
  ~ In "resolveCollisions"%string (launches (issued step s)) /\
  ~ In "debugHistogram"%string (launches (issued step s)) /\
  ~ In "debugSorting"%string (launches (issued step s)) /\
  loaded (issued step s) = [] /\
  lastParameters (issued step s) = None /\
  lastParticles (issued step s) = None.
Proof.
  erewrite issued_launching by apply launching_step.
  rewrite step_issued.
  assert (Hno : forall k : string,
             ~ In k stagesBefore -> ~ In k stagesIteration ->
             ~ In k stagesAfter ->
             ~ In k (stagesBefore
                       ++ List.concat
                            (repeat stagesIteration
                               (Z.to_nat SOLVER_ITERATIONS))
                       ++ stagesAfter)).
  { intros k H1 H2 H3 H. apply in_app_or in H. destruct H as [H | H].
    - exact (H1 H).
    - apply in_app_or in H. destruct H as [H | H].
      + exact (H2 (in_concat_repeat _ _ _ H)).
      + exact (H3 H). }
  repeat split;
    try (apply Hno; cbn; intros H;
         repeat (destruct H as [H | H]; [discriminate H |]); exact H).
  - apply stepCommands_loaded.
  - apply stepCommands_lastParameters.
  - apply stepCommands_lastParticles.
Qed.

(** ** What a step leaves on the host *)

Lemma readFromGPU_exec (s : Simulation) :
  exec readFromGPU s
  = set_particles (deviceParticles (openCL s))
      (set_parameters (deviceParameters (openCL s)) s).
Proof. reflexivity. Qed.

Ltac run_animation :=
  cbv beta iota zeta delta
    [stepBoundsAnimation exec bind gets modify when ret snd fst
     assignMaxX assignMinX limitMaxX limitMinX halfLimit limit width
     origMaxX origMinX sineValue rampValue tPeriod theta];
  cbn -[uincr umod];
  repeat match goal with
         | |- context [match ?c with
                       | SINE_WAVE => _ | LINEAR_RAMP => _ | COMPRESS => _
                       end] => destruct c; cbn -[uincr umod]
         | |- context [if ?c then _ else _] => destruct c; cbn -[uincr umod]
         end.

Lemma stepBoundsAnimation_bounds_after_kernels
    (s : Simulation) (v : list (Command F Parameters)) :
  bounds (exec stepBoundsAnimation (set_openCL v s))
  = bounds (exec stepBoundsAnimation s).
Proof. destruct s. run_animation; reflexivity. Qed.

Lemma stepBoundsAnimation_bounds_after_readback
    (s : Simulation) (v : list (Command F Parameters)) p ps :
  bounds (exec stepBoundsAnimation
            (set_particles ps (set_parameters p (set_openCL v s))))
  = bounds (exec stepBoundsAnimation s).
Proof. destruct s. run_animation; reflexivity. Qed.

Lemma exec_gets A (g : Simulation -> A) (s : Simulation) :
  exec (gets g) s = s.
Proof. reflexivity. Qed.

Lemma eval_gets A (g : Simulation -> A) (s : Simulation) :
  eval (gets g) s = g s.
Proof. reflexivity. Qed.

Lemma step_bounds (s : Simulation) :
  bounds (exec step s)
  = if animBounds s then bounds (exec stepBoundsAnimation s) else bounds s.
Proof.
  unfold step. cbv zeta. rewrite !exec_bind, kernels_exec.
  rewrite !exec_gets, !eval_gets.
  cbn [exec modify snd bounds set_frameNumber].
  destruct DRAW_PARTICLES_AS_SPHERES.
  - rewrite exec_when_true, readFromGPU_exec.
    cbn [animBounds set_particles set_parameters set_openCL].
    destruct (animBounds s).
    + apply stepBoundsAnimation_bounds_after_readback.
    + reflexivity.
  - rewrite exec_when_false.
    cbn [animBounds set_openCL].
    destruct (animBounds s).
    + apply stepBoundsAnimation_bounds_after_kernels.
    + reflexivity.
Qed.

Lemma step_particles (s : Simulation) :
  particles (exec step s)
  = if DRAW_PARTICLES_AS_SPHERES
    then deviceParticles (openCL s ++ stepCommands s)
    else particles s.
Proof.
  unfold step. cbv zeta. rewrite !exec_bind.
  rewrite !(preserved (f := particles)) by frame.
  rewrite kernels_exec.
  destruct DRAW_PARTICLES_AS_SPHERES; reflexivity.
Qed.

Lemma step_parameters (s : Simulation) :
  parameters (exec step s)
  = if DRAW_PARTICLES_AS_SPHERES
    then deviceParameters (openCL s ++ stepCommands s)
    else parameters s.
Proof.
  unfold step. cbv zeta. rewrite !exec_bind.
  rewrite !(preserved (f := parameters)) by frame.
  rewrite kernels_exec.
  destruct DRAW_PARTICLES_AS_SPHERES; reflexivity.
Qed.

(** X3.  On the host a step changes the frame counter and nothing else,
    apart from two things.  With the animation enabled the bounds and the
    animation counter are those [stepBoundsAnimation] computes from the
    state the step was entered with (so the kernels of a step still see
    the old bounds); and when spheres are drawn the particles and the
    parameters are replaced by what the device holds once the queue has
    drained.  Otherwise bounds, particles and parameters stay as they
    were. *)
Theorem step_host_effect (s : Simulation) :
  (numParticles (exec step s) = numParticles s /\
   numCells (exec step s) = numCells s /\
   cellsPerAxis (exec step s) = cellsPerAxis s /\
   dt (exec step s) = dt s /\
   originalBounds (exec step s) = originalBounds s /\
   randState (exec step s) = randState s) /\
  (animType (exec step s) = animType s /\
   animAmp (exec step s) = animAmp s /\
   animPeriod (exec step s) = animPeriod s /\
   animBounds (exec step s) = animBounds s /\
   animBothSides (exec step s) = animBothSides s) /\
  bounds (exec step s)
    = (if animBounds s then bounds (exec stepBoundsAnimation s)
       else bounds s) /\
  animFrameNumber (exec step s)
    = (if animBounds s then animFrameNumber (exec stepBoundsAnimation s)
       else animFrameNumber s) /\
  particles (exec step s)
    = (if DRAW_PARTICLES_AS_SPHERES
       then deviceParticles (openCL s ++ stepCommands s)
       else particles s) /\
  parameters (exec step s)
    = (if DRAW_PARTICLES_AS_SPHERES
       then deviceParameters (openCL s ++ stepCommands s)
       else parameters s).
Proof.
  split; [repeat split; rewrite preserved by frame; reflexivity |].
  split; [repeat split; rewrite preserved by frame; reflexivity |].
  split; [apply step_bounds |].
  split.
  { rewrite step_animFrameNumber, stepBoundsAnimation_animFrameNumber.
    reflexivity. }
  split; [apply step_particles | apply step_parameters].
Qed.

End StepCommands.

(** ** Loading the kernels *)

Section Loading.

Context {F : Type} {FO : FloatOps F} {E : Env F}.

Local Open Scope list_scope.

Lemma loading_conv A (m : M A) (l l' : list string) :
  loading m l -> l = l' -> loading m l'.
Proof. intros H <-. exact H. Qed.

Lemma loading_quiet A (m : M A) : preserves openCL m -> loading m [].
Proof.
  intros H s. exists []. rewrite H, app_nil_r. split; reflexivity.
Qed.

Lemma loading_send (c : Command F Parameters) : loading (send c) (load c).
Proof.
  intros s. exists [c]. split; [reflexivity | apply app_nil_r].
Qed.

Lemma loading_send_nil (c : Command F Parameters) :
  load c = [] -> loading (send c) [].
Proof. intros H. rewrite <- H. apply loading_send. Qed.

Lemma loading_bind A B (m : M A) (k : A -> M B) (l1 l2 : list string) :
  loading m l1 -> (forall a, loading (k a) l2) ->
  loading (bind m k) (l1 ++ l2).
Proof.
  intros Hm Hk s. rewrite exec_bind.
  destruct (Hm s) as [cs1 [E1 L1]].
  destruct (Hk (eval m s) (exec m s)) as [cs2 [E2 L2]].
  exists (cs1 ++ cs2). rewrite E2, E1, app_assoc, loaded_app, L1, L2.
  split; reflexivity.
Qed.

Lemma loading_when (c : bool) (m : M unit) (l : list string) :
  loading m l -> loading (when c m) (if c then l else []).
Proof.
  intros H. destruct c; [exact H | apply loading_quiet, preserves_ret].
Qed.

Lemma loading_bindArgs k args : forall i, loading (bindArgs k i args) [].
Proof.
  induction args as [|a args IH]; intros i; cbn [bindArgs].
  - apply loading_quiet, preserves_ret.
  - apply (@loading_bind _ _ _ _ [] []);
      [apply loading_send_nil; reflexivity | intros _; apply IH].
Qed.

Lemma loading_setupKernel (b : bool) k args :
  loading (setupKernel b k args) (if b then [k] else []).
Proof.
  unfold setupKernel. eapply loading_conv.
  - apply loading_bind; [| intros _; apply loading_bindArgs].
    apply loading_when. apply (loading_send (LoadKernel k)).
  - destruct b; reflexivity.
Qed.

Lemma loading_setupKernels (b : bool) :
  loading (setupKernels b)
    (if b then "kernels/Simulation.cl"%string :: kernelNames else []).
Proof.
  unfold setupKernels. eapply loading_conv.
  - apply loading_bind; [apply loading_quiet; frame | intros s].
    cbv zeta.
    apply loading_bind;
      [apply loading_when; apply (loading_send (LoadProgram _)) | intros _].
    repeat (apply loading_bind; [apply loading_setupKernel | intros _]).
    apply loading_send_nil; reflexivity.
  - destruct b; reflexivity.
Qed.

Lemma loading_initializeBuffers : loading initializeBuffers [].
Proof.
  unfold initializeBuffers. eapply loading_conv.
  - apply loading_bind; [apply loading_quiet; frame | intros s].
    cbv zeta.
    apply loading_bind;
      [apply loading_send_nil; reflexivity | intros _].
    apply loading_bind; [apply loading_quiet; frame | intros _].
    apply loading_bind; [apply loading_quiet; frame | intros n].
    apply loading_bind; [apply loading_quiet; frame | intros c].
    apply loading_bind;
      [apply loading_send_nil; reflexivity | intros _].
    apply loading_bind; [apply loading_quiet; frame | intros _].
    apply loading_bind.
    { apply (@loading_conv _ _ [] []); [| reflexivity].
      destruct DRAW_PARTICLES_AS_SPHERES.
      - apply loading_send_nil; reflexivity.
      - apply loading_send_nil; reflexivity. }
    intros _.
    repeat (apply loading_bind;
            [apply loading_send_nil; reflexivity | intros _]).
    apply loading_bind; [apply loading_quiet; frame | intros r].
    apply loading_quiet; frame.
  - reflexivity.
Qed.

Lemma loading_writeToGPU : loading writeToGPU [].
Proof.
  unfold writeToGPU. eapply loading_conv.
  - apply loading_bind; [apply loading_quiet; frame | intros p].
    apply (@loading_bind _ _ _ _ [] []);
      [apply loading_send_nil; reflexivity | intros _].
    apply (@loading_bind _ _ _ _ [] []);
      [apply loading_quiet; frame | intros ps].
    apply (@loading_bind _ _ _ _ [] []);
      [apply loading_send_nil; reflexivity | intros _].
    apply loading_send_nil; reflexivity.
  - reflexivity.
Qed.

Lemma loading_initialize :
  loading initialize ("kernels/Simulation.cl"%string :: kernelNames).
Proof.
  unfold initialize, initializeOpenGL. eapply loading_conv.
  - apply loading_bind; [apply loading_quiet; frame | intros _].
    apply loading_bind; [apply loading_initializeBuffers | intros _].
    apply loading_bind; [apply (loading_setupKernels true) | intros _].
    apply loading_writeToGPU.
  - reflexivity.
Qed.

Lemma loading_reset : loading reset [].
Proof.
  unfold reset. eapply loading_conv.
  - apply loading_bind; [apply loading_quiet; frame | intros _].
    apply loading_bind; [apply loading_initializeBuffers | intros _].
    apply loading_bind; [apply (loading_setupKernels false) | intros _].
    apply loading_bind; [apply loading_quiet; frame | intros _].
    apply loading_writeToGPU.
  - reflexivity.
Qed.

Lemma issued_loading A (m : M A) (l : list string) (s : Simulation) :
  loading m l -> loaded (issued m s) = l.
Proof.
  intros H. destruct (H s) as [cs [Ecs L]].
  unfold issued. rewrite Ecs, skipn_app, skipn_all, Nat.sub_diag. exact L.
Qed.

(** X4.  Construction loads the program and then each of the fifteen
    kernels once, in the order of [setupKernels]; [reset] goes through
    [setupKernels(false)] and loads nothing again. *)
Theorem kernels_loaded_once (s : Simulation) :
  loaded (issued initialize s)
    = "kernels/Simulation.cl"%string :: kernelNames /\
  loaded (issued (setupKernels true) s)
    = "kernels/Simulation.cl"%string :: kernelNames /\
  loaded (issued (setupKernels false) s) = [] /\
  loaded (issued reset s) = [].
Proof.
  split; [apply issued_loading, loading_initialize |].
  split; [apply issued_loading, (loading_setupKernels true) |].
  split; [apply issued_loading, (loading_setupKernels false) |].
  apply issued_loading, loading_reset.
Qed.

End Loading.

(** ** Invariants of the object *)

Section Invariants.

Context {F : Type} {FO : FloatOps F} {E : Env F}.

Local Open Scope list_scope.

(** *** Host and device copies *)

Lemma writeToGPU_exec (s : Simulation) :
  exec writeToGPU s
  = set_openCL
      (openCL s ++ [WriteParameters (parameters s);
                    WriteParticles (particles s); WriteRenderPos]) s.
Proof.
  unfold writeToGPU. rewrite !exec_bind, !send_exec, !exec_gets, !eval_gets.
  cbn -[app]. rewrite <- !app_assoc. reflexivity.
Qed.

Lemma writeToGPU_inSync (s : Simulation) : inSync (exec writeToGPU s).
Proof.
  rewrite writeToGPU_exec. unfold inSync.
  cbn [openCL parameters particles set_openCL].
  rewrite lastParameters_app, lastParticles_app. split; reflexivity.
Qed.

Lemma setParameters_exec p (s : Simulation) :
  exec (setParameters p) s
  = set_openCL (openCL s ++ [WriteParameters p]) (set_parameters p s).
Proof. reflexivity. Qed.

Lemma call_inSync (c : Call) (s : Simulation) :
  DRAW_PARTICLES_AS_SPHERES = false ->
  inSync s -> inSync (exec (call c) s).
Proof.
  intros Hd [Hp Hq]. unfold inSync.
  destruct c; cbn [call];
    try (rewrite !(preserved (f := openCL)), !(preserved (f := parameters)),
           !(preserved (f := particles)) by frame;
         split; assumption).
  - rewrite step_openCL, step_parameters, step_particles, Hd.
    rewrite lastParameters_app, lastParticles_app.
    rewrite stepCommands_lastParameters, stepCommands_lastParticles.
    split; assumption.
  - unfold reset. rewrite !exec_bind. apply writeToGPU_inSync.
  - rewrite setParameters_exec.
    cbn [openCL parameters particles set_openCL set_parameters].
    rewrite lastParameters_app, lastParticles_app. cbn.
    split; [reflexivity | exact Hq].
Qed.

(** X6.  When points are drawn (no read-back), the parameters and the
    particles held on the host are at all times the ones last uploaded to
    the device: every method that changes either of them uploads it
    before returning. *)
Theorem reachable_inSync (b0 : AABB F) (s : Simulation) :
  DRAW_PARTICLES_AS_SPHERES = false ->
  reachable b0 s -> inSync s.
Proof.
  intros Hd. induction 1 as [cl g n p | cl g n d c p | c s _ IH].
  - unfold construct, initialize. rewrite !exec_bind.
    apply writeToGPU_inSync.
  - unfold constructWithGrid, initialize. rewrite !exec_bind.
    apply writeToGPU_inSync.
  - apply call_inSync; assumption.
Qed.

End Invariants.

(** ** Argument slots *)

Section Slots.

Context {F : Type} {FO : FloatOps F} {E : Env F}.

Local Open Scope list_scope.

Lemma bindArgs_exec k : forall args i (s : Simulation),
  exec (bindArgs k i args) s
  = set_openCL
      (openCL s
         ++ map (fun ia => SetArg k (fst ia) (snd ia))
              (combine (seq i (List.length args)) args)) s.
Proof.
  induction args as [|a args IH]; intros i s; cbn [bindArgs].
  - destruct s; cbn. rewrite app_nil_r. reflexivity.
  - rewrite exec_bind, IH. unfold setArg. rewrite send_exec.
    cbn -[app]. rewrite <- app_assoc. reflexivity.
Qed.

Lemma handleCollisions_issued (s : Simulation) :
  issued handleCollisions s = boundCommands s "resolveCollisions" 2 3.
Proof.
  apply issued_app. unfold handleCollisions. rewrite runWithBounds_exec.
  reflexivity.
Qed.

Ltac find_in_list :=
  repeat lazymatch goal with
         | |- In ?x (?y :: _) =>
             first [constr_eq x y; left; reflexivity | right]
         end.

Lemma snocAll_app (cs l : list (Command F Parameters)) :
  snocAll l cs = l ++ cs.
Proof.
  unfold snocAll. revert l.
  induction cs as [|c cs IH]; intros l; cbn [fold_left].
  - symmetry. apply app_nil_r.
  - rewrite IH, <- app_assoc. reflexivity.
Qed.

(** Reading the commands off a log that was built by appending them one
    at a time to [base]. *)
Ltac appended t acc :=
  lazymatch t with
  | ?a ++ [?c] => appended a (c :: acc)
  | _ => constr:(acc)
  end.

Ltac flatten_log base :=
  lazymatch goal with
  | |- context [skipn (List.length base) ?t] =>
      let cs := appended t (@nil (Command F Parameters)) in
      change t with (snocAll base cs);
      rewrite snocAll_app, skipn_app, skipn_all, Nat.sub_diag;
      cbn [skipn app]
  end.

Lemma in_boundCommands (s : Simulation) k0 i0 j0 k i v :
  In (SetArg k i (ArgVec3 v)) (boundCommands s k0 i0 j0) ->
  k = k0 /\
  ((i = i0 /\ v = getMinExtent (bounds s)) \/
   (i = j0 /\ v = getMaxExtent (bounds s))).
Proof.
  unfold boundCommands. cbn [In]. intros [H | [H | [H | []]]].
  - injection H as <- <- <-. split; [reflexivity | left; split; reflexivity].
  - injection H as <- <- <-. split; [reflexivity | right; split; reflexivity].
  - discriminate H.
Qed.

Lemma setupKernels_binds_bounds (b : bool) (s : Simulation) :
  forall k i j,
    In (k, i, j)
       [("discretizeParticlePositions"%string, 6%nat, 7%nat);
        ("estimateDensity"%string, 8%nat, 9%nat);
        ("computeLambda"%string, 9%nat, 10%nat);
        ("computePositionDelta"%string, 9%nat, 10%nat);
        ("resolveCollisions"%string, 2%nat, 3%nat);
        ("computeCurl"%string, 8%nat, 9%nat);
        ("updatePosition"%string, 10%nat, 11%nat)] ->
    boundArg k i (issued (setupKernels b) s)
    = Some (ArgVec3 (getMinExtent (bounds s))) /\
    boundArg k j (issued (setupKernels b) s)
    = Some (ArgVec3 (getMaxExtent (bounds s))).
Proof.
  intros k i j H.
  unfold issued, exec, setupKernels, setupKernel.
  destruct b; cbn -[In skipn boundArg]; flatten_log (openCL s);
    cbn [In] in H;
    repeat (destruct H as [H | H];
            [injection H as <- <- <-; split; vm_compute; reflexivity |]);
    destruct H.
Qed.

(** X7.  Every bounds argument that a step (or [handleCollisions])
    rebinds before running a kernel goes to a slot of that kernel which
    [setupKernels] left bound to the same extent of the bounds: the
    indices used at run time (6 and 7 for the discretization, 8 and 9 for
    the density and the curl, 9 and 10 for lambda and the position delta,
    10 and 11 for the position update, 2 and 3 for the collisions) are the
    positions of [minExt] and [maxExt] in the argument lists. *)
Theorem rebinding_matches_setup (b : bool) (s : Simulation) k i v :
  In (SetArg k i (ArgVec3 v)) (issued step s ++ issued handleCollisions s) ->
  boundArg k i (issued (setupKernels b) s) = Some (ArgVec3 v).
Proof.
  rewrite step_issued, handleCollisions_issued.
  unfold stepCommands, commandsBefore, commandsAfter.
  intros H.
  assert (Hk : exists k0 i0 j0,
             In (k0, i0, j0)
               [("discretizeParticlePositions"%string, 6%nat, 7%nat);
                ("estimateDensity"%string, 8%nat, 9%nat);
                ("computeLambda"%string, 9%nat, 10%nat);
                ("computePositionDelta"%string, 9%nat, 10%nat);
                ("resolveCollisions"%string, 2%nat, 3%nat);
                ("computeCurl"%string, 8%nat, 9%nat);
                ("updatePosition"%string, 10%nat, 11%nat)] /\
             In (SetArg k i (ArgVec3 v)) (boundCommands s k0 i0 j0)).
  { repeat (apply in_app_or in H; destruct H as [H | H]);
      try (apply in_concat_repeat in H; unfold iterationCommands in H;
           repeat (apply in_app_or in H; destruct H as [H | H]));
      first
        [ solve [cbn [In] in H;
                 repeat (destruct H as [H | H]; [discriminate H |]);
                 destruct H]
        | (eexists; eexists; eexists; split; [| exact H]); find_in_list ]. }
  destruct Hk as [k0 [i0 [j0 [Hin Hc]]]].
  destruct (@setupKernels_binds_bounds b s _ _ _ Hin) as [Hmin Hmax].
  destruct (@in_boundCommands _ _ _ _ _ _ _ Hc) as [-> [[-> ->] | [-> ->]]];
    assumption.
Qed.

End Slots.

(** ** Resetting, and many steps *)

Section Resetting.

Context {F : Type} {FO : FloatOps F} {E : Env F}.

Local Open Scope list_scope.

Lemma reset_particles (s : Simulation) :
  particles (exec reset s)
  = particles (exec initializeBuffers (set_frameNumber 0 s)).
Proof.
  unfold reset. rewrite !exec_bind.
  rewrite !(preserved (f := particles)) by frame. reflexivity.
Qed.

(** X8.  [reset] zeroes the frame counter and keeps the parameters, the
    time step and all animation settings (type, amplitude, period, both
    flags).  It draws [numParticles] fresh particles, and draws them in
    the box that was current before the call, although the bounds it
    leaves are the original ones: the buffers are initialized before the
    bounds are restored. *)
Theorem reset_effect (s : Simulation) :
  frameNumber (exec reset s) = 0%Z /\
  (parameters (exec reset s) = parameters s /\
   dt (exec reset s) = dt s /\
   animType (exec reset s) = animType s /\
   animAmp (exec reset s) = animAmp s /\
   animPeriod (exec reset s) = animPeriod s /\
   animBounds (exec reset s) = animBounds s /\
   animBothSides (exec reset s) = animBothSides s) /\
  bounds (exec reset s) = originalBounds s /\
  List.length (particles (exec reset s)) = Z.to_nat (numParticles s) /\
  Forall (initialParticle (getMinExtent (bounds s))
            (getMaxExtent (bounds s)) (particleRadius (parameters s)))
    (particles (exec reset s)).
Proof.
  split; [apply reset_frameNumber |].
  split; [repeat split; rewrite preserved by frame; reflexivity |].
  split; [apply reset_bounds |].
  rewrite reset_particles.
  exact (initializeBuffers_particles (set_frameNumber 0 s)).
Qed.

(** *** Many steps *)

Lemma steps_bounds_still (n : N) (s : Simulation) :
  animBounds s = false ->
  bounds (exec (times n step) s) = bounds s /\
  animFrameNumber (exec (times n step) s) = animFrameNumber s.
Proof.
  intros Hb. induction n as [|n [IHb IHa]] using N.peano_ind.
  - rewrite times_0. split; reflexivity.
  - rewrite times_succ, step_bounds, step_animFrameNumber.
    rewrite (preserves_times n step_animBounds), Hb.
    split; assumption.
Qed.

(** X10.  After [n] steps the frame counter is its old value plus [n],
    modulo 2^32.  The animation counter advances in the same way while
    the animation is enabled; while it is disabled, neither it nor the
    bounds move, however many steps are taken. *)
Theorem steps_counters (n : N) (s : Simulation) :
  countersInRange s ->
  frameNumber (exec (times n step) s)
    = ((frameNumber s + Z.of_N n) mod 2 ^ 32)%Z /\
  (animBounds s = true ->
   animFrameNumber (exec (times n step) s)
   = ((animFrameNumber s + Z.of_N n) mod 2 ^ 32)%Z) /\
  (animBounds s = false ->
   animFrameNumber (exec (times n step) s) = animFrameNumber s /\
   bounds (exec (times n step) s) = bounds s).
Proof.
  intros [Hf Ha]. split; [apply times_step_frameNumber, Hf |].
  split.
  - intros Hb. apply times_step_animFrameNumber; assumption.
  - intros Hb. destruct (@steps_bounds_still n s Hb) as [H1 H2].
    split; assumption.
Qed.

End Resetting.

(** ** The animation in exact arithmetic *)

Section AnimationFacts.

Context {E : Env R}.

Local Open Scope R_scope.

Lemma sine_bounds (s : Simulation) :
  animType s = SINE_WAVE ->
  boundsMaxX (exec stepBoundsAnimation s) = origMaxX s - sineValue s /\
  boundsMinX (exec stepBoundsAnimation s)
  = if animBothSides s then origMinX s + sineValue s else boundsMinX s.
Proof.
  intros H. unfold boundsMaxX, boundsMinX.
  cbv beta iota zeta delta
    [stepBoundsAnimation exec bind gets modify when ret snd fst
     assignMaxX assignMinX].
  rewrite H. destruct (animBothSides s); cbn; split; reflexivity.
Qed.

Lemma ramp_bounds (s : Simulation) :
  animType s = LINEAR_RAMP ->
  boundsMaxX (exec stepBoundsAnimation s) = origMaxX s - rampValue s /\
  boundsMinX (exec stepBoundsAnimation s)
  = if animBothSides s then origMinX s + rampValue s else boundsMinX s.
Proof.
  intros H. unfold boundsMaxX, boundsMinX.
  cbv beta iota zeta delta
    [stepBoundsAnimation exec bind gets modify when ret snd fst
     assignMaxX assignMinX].
  rewrite H. destruct (animBothSides s); cbn; split; reflexivity.
Qed.

Lemma waveValue_setBounds (b : AABB R) (s : Simulation) :
  waveValue (exec (setBounds b) s) = waveValue s.
Proof. destruct s; reflexivity. Qed.

Lemma wave_bounds (s : Simulation) (v : R) :
  waveValue s = Some v ->
  boundsMaxX (exec stepBoundsAnimation s) = origMaxX s - v /\
  boundsMinX (exec stepBoundsAnimation s)
  = if animBothSides s then origMinX s + v else boundsMinX s.
Proof.
  unfold waveValue. intros Hv.
  destruct (animType s) eqn:Ht; [| | discriminate];
    injection Hv as <-; [apply sine_bounds | apply ramp_bounds]; exact Ht.
Qed.

(** X11.  Under the sine wave and under the linear ramp with a period
    other than 0, [stepBoundsAnimation] puts the upper X bound at the
    original upper bound minus the wave value [v] of the frame.  The
    bounds in force before the call play no part: after [setBounds] with
    any box the call leaves the same upper X bound.  With both sides
    enabled the lower bound is the original lower bound plus [v], so the
    box stays centred on the original centre; with both sides disabled
    the lower bound is not touched. *)
Theorem wave_is_symmetric (s : Simulation) (v : R) :
  waveValue s = Some v -> animPeriod s <> 0 ->
  boundsMaxX (exec stepBoundsAnimation s) = origMaxX s - v /\
  (forall b : AABB R,
     boundsMaxX (exec stepBoundsAnimation (exec (setBounds b) s))
     = origMaxX s - v) /\
  (animBothSides s = true ->
   boundsMinX (exec stepBoundsAnimation s) = origMinX s + v /\
   boundsMinX (exec stepBoundsAnimation s)
     + boundsMaxX (exec stepBoundsAnimation s)
   = origMinX s + origMaxX s) /\
  (animBothSides s = false ->
   boundsMinX (exec stepBoundsAnimation s) = boundsMinX s).
Proof.
  intros Hv _. destruct (wave_bounds s Hv) as [Hmax Hmin].
  split; [exact Hmax |].
  split.
  - intros b.
    assert (Hv' : waveValue (exec (setBounds b) s) = Some v).
    { rewrite waveValue_setBounds. exact Hv. }
    destruct (wave_bounds (exec (setBounds b) s) Hv') as [Hmax' _].
    rewrite Hmax'. reflexivity.
  - rewrite Hmax, Hmin.
    split; intros Hb; rewrite Hb; [split; [reflexivity | lra] | reflexivity].
Qed.

(** X12.  Under the sine wave the offset never exceeds the amplitude in
    magnitude: the upper X bound stays within [animAmp] of the original
    one. *)
Theorem sine_wave_bounded (s : Simulation) :
  animType s = SINE_WAVE ->
  Rabs (maxXOffset s) <= Rabs (animAmp s) /\
  origMaxX s - Rabs (animAmp s) <= boundsMaxX (exec stepBoundsAnimation s)
    <= origMaxX s + Rabs (animAmp s).
Proof.
  intros Ht.
  assert (Hb : Rabs (maxXOffset s) <= Rabs (animAmp s)).
  { rewrite (maxXOffset_sine s Ht), sineValue_unfold, Rabs_mult.
    pose proof (Rabs_pos (animAmp s)) as Hp.
    assert (Hs : Rabs (sin (animPeriod s * PI
                             * (IZR (animFrameNumber s mod 720)
                                * (PI / 180)))) <= 1).
    { apply Rabs_le. apply SIN_bound. }
    nra. }
  split; [exact Hb |].
  destruct (sine_bounds s Ht) as [Hmax _].
  rewrite Hmax, <- (maxXOffset_sine s Ht).
  pose proof (Rle_abs (maxXOffset s)) as H1.
  pose proof (Rle_abs (- maxXOffset s)) as H2.
  rewrite Rabs_Ropp in H2. lra.
Qed.

(** *** After [resetBounds] *)

Lemma resetBounds_frame0 (s : Simulation) :
  animFrameNumber (exec resetBounds s) = 0%Z /\
  bounds (exec resetBounds s) = originalBounds s /\
  originalBounds (exec resetBounds s) = originalBounds s /\
  animType (exec resetBounds s) = animType s /\
  animBothSides (exec resetBounds s) = animBothSides s /\
  animAmp (exec resetBounds s) = animAmp s /\
  animPeriod (exec resetBounds s) = animPeriod s /\
  dt (exec resetBounds s) = dt s.
Proof. repeat split. Qed.

Lemma aabb_ext (a b : AABB R) :
  vx (minV a) = vx (minV b) -> vy (minV a) = vy (minV b) ->
  vz (minV a) = vz (minV b) -> vx (maxV a) = vx (maxV b) ->
  vy (maxV a) = vy (maxV b) -> vz (maxV a) = vz (maxV b) -> a = b.
Proof.
  destruct a as [[a1 a2 a3] [a4 a5 a6]], b as [[b1 b2 b3] [b4 b5 b6]].
  cbn. intros -> -> -> -> -> ->. reflexivity.
Qed.

(** X13.  The first animated frame after [resetBounds] (or after
    construction) leaves the bounds at the original box under the sine
    wave and under the linear ramp with a non-zero period: at animation
    frame 0 both waves are at 0. *)
Theorem first_frame_after_resetBounds (s : Simulation) :
  animType s <> COMPRESS -> animPeriod s <> 0 ->
  bounds (exec stepBoundsAnimation (exec resetBounds s)) = originalBounds s /\
  animFrameNumber (exec stepBoundsAnimation (exec resetBounds s)) = 1%Z.
Proof.
  intros Hc Hp.
  split; [| rewrite stepBoundsAnimation_animFrameNumber; reflexivity].
  set (t := exec resetBounds s).
  destruct (resetBounds_frame0 s)
    as [Hf [Hb [Ho [Ht [Hbs [Ha [Hpe Hdt]]]]]]].
  fold t in Hf, Hb, Ho, Ht, Hbs, Ha, Hpe, Hdt.
  assert (Hx : boundsMaxX (exec stepBoundsAnimation t) = origMaxX t /\
               boundsMinX (exec stepBoundsAnimation t) = boundsMinX t).
  { assert (Hmin : origMinX t = boundsMinX t).
    { unfold origMinX, boundsMinX. rewrite Ho, Hb. reflexivity. }
    destruct (animType s) eqn:Hty; [| | contradiction].
    - destruct (sine_bounds t Ht) as [Hmax Hmn]. rewrite Hmax, Hmn.
      assert (Hv : sineValue t = 0).
      { rewrite sineValue_unfold, Hf. change (0 mod 720)%Z with 0%Z.
        replace (animPeriod t * PI * (0 * (PI / 180))) with 0 by lra.
        rewrite sin_0. lra. }
      rewrite Hv, Hmin. split; [lra | destruct (animBothSides t); lra].
    - destruct (ramp_bounds t Ht) as [Hmax Hmn]. rewrite Hmax, Hmn.
      assert (Hv : rampValue t = 0).
      { rewrite rampValue_unfold, tPeriod_unfold, Hf.
        replace (0 / animPeriod t * dt t) with 0 by (unfold Rdiv; lra).
        rewrite (@Int_part_unique (1 / 2 + 0) 0) by lra. lra. }
      rewrite Hv, Hmin. split; [lra | destruct (animBothSides t); lra]. }
  destruct Hx as [Hmax Hmin].
  unfold boundsMaxX, boundsMinX, getMaxExtent, getMinExtent in Hmax, Hmin.
  apply aabb_ext.
  - rewrite <- Hb. exact Hmin.
  - rewrite <- Hb. apply (stepBoundsAnimation_minY t).
  - rewrite <- Hb. apply (stepBoundsAnimation_minZ t).
  - rewrite Hmax. unfold origMaxX, getMaxExtent. rewrite Ho. reflexivity.
  - rewrite <- Hb. apply (stepBoundsAnimation_maxY t).
  - rewrite <- Hb. apply (stepBoundsAnimation_maxZ t).
Qed.

(** *** Where the compression ends *)

Lemma limitMaxX_after (s : Simulation) (n : N) :
  limitMaxX (exec (times n stepBoundsAnimation) s) = limitMaxX s.
Proof.
  rewrite !limitMaxX_unfold. unfold origMaxX, origMinX.
  rewrite (preserves_times n stepBoundsAnimation_originalBounds).
  reflexivity.
Qed.

Lemma compress_next (s : Simulation) (n : N) :
  animType s = COMPRESS ->
  boundsMaxX (exec (times (N.succ n) stepBoundsAnimation) s)
  = if fle (limitMaxX s) (boundsMaxX (exec (times n stepBoundsAnimation) s))
    then boundsMaxX (exec (times n stepBoundsAnimation) s) - 1 / 4
    else boundsMaxX (exec (times n stepBoundsAnimation) s).
Proof.
  intros Ht. rewrite times_succ. unfold boundsMaxX.
  rewrite compress_maxX, limitMaxX_after; [reflexivity |].
  rewrite (preserves_times n stepBoundsAnimation_animType). exact Ht.
Qed.

Lemma compress_progress (s : Simulation) (n : N) :
  animType s = COMPRESS ->
  boundsMaxX (exec (times n stepBoundsAnimation) s)
    = boundsMaxX s - IZR (Z.of_N n) / 4 \/
  boundsMaxX (exec (times n stepBoundsAnimation) s) < limitMaxX s.
Proof.
  intros Ht. induction n as [|n IH] using N.peano_ind.
  - left. rewrite times_0. cbn. lra.
  - rewrite (@compress_next s n Ht).
    destruct (fle (limitMaxX s)
                (boundsMaxX (exec (times n stepBoundsAnimation) s))) eqn:Hc.
    + destruct IH as [IH | IH].
      * left. rewrite IH, N2Z.inj_succ, succ_IZR. lra.
      * apply fle_true in Hc. lra.
    + right. apply fle_false in Hc. exact Hc.
Qed.

(** X14.  Under [COMPRESS] the contraction of the upper X bound comes to
    an end.  Once the bound is below [limitMaxX] no further call moves
    it; this happens after at most [4 * (bound - limitMaxX)] calls, more
    exactly as soon as [n / 4] exceeds the distance to the limit; and a
    bound that starts no more than one step below the limit never gets
    more than one step (0.25) below it. *)
Theorem compress_stops (s : Simulation) (n : N) :
  animType s = COMPRESS ->
  (boundsMaxX s < limitMaxX s ->
   boundsMaxX (exec (times n stepBoundsAnimation) s) = boundsMaxX s) /\
  (boundsMaxX s - limitMaxX s < IZR (Z.of_N n) / 4 ->
   boundsMaxX (exec (times n stepBoundsAnimation) s) < limitMaxX s) /\
  (limitMaxX s - 1 / 4 <= boundsMaxX s ->
   limitMaxX s - 1 / 4
   <= boundsMaxX (exec (times n stepBoundsAnimation) s)).
Proof.
  intros Ht. split; [| split].
  - intros Hlow. induction n as [|n IH] using N.peano_ind.
    + rewrite times_0. reflexivity.
    + rewrite (@compress_next s n Ht), IH.
      apply fle_false in Hlow. rewrite Hlow. reflexivity.
  - intros Hfar. destruct (@compress_progress s n Ht) as [H | H].
    + rewrite H. lra.
    + exact H.
  - intros Hnear. induction n as [|n IH] using N.peano_ind.
    + rewrite times_0. exact Hnear.
    + rewrite (@compress_next s n Ht).
      destruct (fle (limitMaxX s)
                  (boundsMaxX (exec (times n stepBoundsAnimation) s)))
        eqn:Hc.
      * apply fle_true in Hc. lra.
      * exact IH.
Qed.

End AnimationFacts.

(** ** Initial positions and the ideal grid in exact arithmetic *)

Section Placement.

Context {E : Env R}.

Local Open Scope R_scope.

Lemma drawnFrom_in_range (lo hi v : R) :
  ofRandomInRange -> lo <= hi -> drawnFrom (lo, hi) v -> lo <= v <= hi.
Proof.
  intros Hc Hle [g ->]. cbn [fst snd]. apply Hc. exact Hle.
Qed.

Lemma posRange_unfold (p1 p2 : Vec3 R) (radius : R) :
  posRangeX p1 p2 radius = (vx p1 + radius, vx p2 - radius) /\
  posRangeY p1 p2 radius = (vy p1 + radius, 1 / 4 * (vy p2 - radius)) /\
  posRangeZ p1 p2 radius = (vz p1 + radius, vz p2 - radius).
Proof.
  unfold posRangeX, posRangeY, posRangeZ.
  cbn [fadd fsub fmul flit RealOps]. rewrite Q2R_quarter.
  repeat split.
Qed.

(** X15.  If [ofRandom] returns values inside the range it is given and
    the radius is not negative, then in a box that is at least two radii
    wide on X and on Z every initial particle lies inside the box on these
    two axes, at least one radius away from the walls.  On Y it lies
    between [min.y + radius] and a quarter of [max.y - radius], whenever
    that range is not empty. *)
Theorem initial_positions_in_range (s : Simulation) :
  ofRandomInRange ->
  let p1 := getMinExtent (bounds s) in
  let p2 := getMaxExtent (bounds s) in
  let r := particleRadius (parameters s) in
  0 <= r ->
  vx p1 + r <= vx p2 - r ->
  vz p1 + r <= vz p2 - r ->
  Forall (fun p : Particle R =>
            (vx p1 <= vx p1 + r <= vx (pos p) /\
             vx (pos p) <= vx p2 - r <= vx p2) /\
            (vz p1 <= vz p1 + r <= vz (pos p) /\
             vz (pos p) <= vz p2 - r <= vz p2) /\
            (vy p1 + r <= 1 / 4 * (vy p2 - r) ->
             vy p1 + r <= vy (pos p) <= 1 / 4 * (vy p2 - r)))
    (particles (exec initializeBuffers s)).
Proof.
  intros Hc p1 p2 r Hr Hx Hz.
  destruct (initializeBuffers_particles s) as [_ Hall].
  fold p1 p2 r in Hall.
  eapply Forall_impl; [| exact Hall].
  intros p [Dx [Dy [Dz _]]].
  destruct (posRange_unfold p1 p2 r) as [Ex [Ey Ez]].
  rewrite Ex in Dx. rewrite Ey in Dy. rewrite Ez in Dz.
  pose proof (@drawnFrom_in_range _ _ _ Hc Hx Dx) as Bx.
  pose proof (@drawnFrom_in_range _ _ _ Hc Hz Dz) as Bz.
  split; [lra | split; [lra |]].
  intros Hy. exact (@drawnFrom_in_range _ _ _ Hc Hy Dy).
Qed.

(** *** The ideal grid *)

Lemma Rceil_bounds (x : R) : IZR (Rceil x) - 1 < x <= IZR (Rceil x).
Proof.
  unfold Rceil. rewrite opp_IZR.
  pose proof (Int_part_bounds (- x)). lra.
Qed.

Lemma Rtrunc_IZR (z : Z) : Rtrunc (IZR z) = z.
Proof.
  unfold Rtrunc. destruct (Rle_dec 0 (IZR z)).
  - apply Int_part_unique. lra.
  - rewrite <- opp_IZR, (@Int_part_unique (IZR (- z)) (- z)%Z) by lra.
    lia.
Qed.

Lemma ideal_cells (x : R) :
  of_int (to_int (fceil x)) = IZR (Rceil x).
Proof.
  cbn [of_int to_int fceil RealOps]. fold (Rceil x).
  rewrite Rtrunc_IZR. reflexivity.
Qed.

Lemma construct_cellsPerAxis cl g (b : AABB R) n p :
  cellsPerAxis (construct cl g b n p)
  = eval findIdealParticleCount
      (newSimulation cl g b n DEFAULT_DT zeroVec p).
Proof.
  unfold construct. rewrite !exec_bind.
  rewrite (preserved (f := cellsPerAxis) (m := initialize)) by frame.
  reflexivity.
Qed.

Lemma construct_numCells cl g (b : AABB R) n p :
  numCells (construct cl g b n p)
  = cellProduct (cellsPerAxis (construct cl g b n p)).
Proof.
  unfold construct at 1 2. rewrite !exec_bind.
  rewrite initialize_numCells, initialize_cellsPerAxis. reflexivity.
Qed.

Lemma cover_axis (w r q : R) :
  0 < r -> 0 < q ->
  (IZR (Rceil (w / r / q)) - 1) * (r * q) < w
    <= IZR (Rceil (w / r / q)) * (r * q).
Proof.
  intros Hr Hq. pose proof (Rceil_bounds (w / r / q)) as [H1 H2].
  assert (Hrq : 0 < r * q) by nra.
  assert (Hw : w / r / q * (r * q) = w) by (field; lra).
  set (c := IZR (Rceil (w / r / q))) in *.
  set (x := w / r / q) in *.
  split; nra.
Qed.

(** X16.  When the grid is left to the constructor, with a positive
    particle radius and positive per-cell targets, and as long as the
    three cell counts and the products the code forms from them are values
    of an [int], each axis gets a whole number of cells, the least number
    of cells of edge [radius * PARTICLES_PER_CELL] that cover the box on
    that axis, and [numCells] is the product of the three numbers. *)
Theorem construct_ideal_grid cl g (b : AABB R) n p :
  0 < particleRadius p ->
  (0 < PARTICLES_PER_CELL_X)%Z -> (0 < PARTICLES_PER_CELL_Y)%Z ->
  (0 < PARTICLES_PER_CELL_Z)%Z ->
  let r := particleRadius p in
  let w := vx (getMaxExtent b) - vx (getMinExtent b) in
  let h := vy (getMaxExtent b) - vy (getMinExtent b) in
  let d := vz (getMaxExtent b) - vz (getMinExtent b) in
  let cx := Rceil (w / r / IZR PARTICLES_PER_CELL_X) in
  let cy := Rceil (h / r / IZR PARTICLES_PER_CELL_Y) in
  let cz := Rceil (d / r / IZR PARTICLES_PER_CELL_Z) in
  fitsInt cx -> fitsInt cy -> fitsInt cz ->
  fitsInt (cx * cy) -> fitsInt (cx * cy * cz) ->
  cellsPerAxis (construct cl g b n p) = mkVec3 (IZR cx) (IZR cy) (IZR cz) /\
  numCells (construct cl g b n p) = (cx * cy * cz)%Z /\
  (IZR cx - 1) * (r * IZR PARTICLES_PER_CELL_X) < w
    <= IZR cx * (r * IZR PARTICLES_PER_CELL_X) /\
  (IZR cy - 1) * (r * IZR PARTICLES_PER_CELL_Y) < h
    <= IZR cy * (r * IZR PARTICLES_PER_CELL_Y) /\
  (IZR cz - 1) * (r * IZR PARTICLES_PER_CELL_Z) < d
    <= IZR cz * (r * IZR PARTICLES_PER_CELL_Z).
Proof.
  intros Hr Hx Hy Hz r w h d cx cy cz _ _ _ _ _.
  assert (Hc : cellsPerAxis (construct cl g b n p)
               = mkVec3 (IZR cx) (IZR cy) (IZR cz)).
  { rewrite construct_cellsPerAxis.
    unfold findIdealParticleCount, eval, bind, gets, ret. cbn [fst snd].
    cbn [bounds parameters newSimulation].
    rewrite !ideal_cells. reflexivity. }
  split; [exact Hc |].
  split.
  { rewrite construct_numCells, Hc. unfold cellProduct.
    cbn [vx vy vz to_int RealOps]. rewrite !Rtrunc_IZR. reflexivity. }
  apply IZR_lt in Hx, Hy, Hz.
  split; [apply cover_axis; assumption |].
  split; apply cover_axis; assumption.
Qed.

End Placement.

(** ** The particle buffer *)

Section ParticleCount.

Context {F : Type} {FO : FloatOps F} {E : Env F}.

Lemma initialize_particle_count (s : Simulation) :
  List.length (particles (exec initialize s))
  = Z.to_nat (numParticles (exec initialize s)).
Proof.
  rewrite initialize_particles.
  rewrite (preserved (f := numParticles) (m := initialize)) by frame.
  apply initializeBuffers_particles.
Qed.

Lemma call_particle_count (c : Call) (s : Simulation) :
  DRAW_PARTICLES_AS_SPHERES = false ->
  List.length (particles s) = Z.to_nat (numParticles s) ->
  List.length (particles (exec (call c) s))
  = Z.to_nat (numParticles (exec (call c) s)).
Proof.
  intros Hd Hs. rewrite call_numParticles.
  destruct c; cbn [call];
    try (rewrite (preserved (f := particles)) by frame; exact Hs).
  - rewrite step_particles, Hd. exact Hs.
  - rewrite reset_particles.
    apply (initializeBuffers_particles (set_frameNumber 0 s)).
Qed.

(** X17.  When points are drawn (no read-back), the particle buffer of
    every object built by a constructor and driven through the public
    methods holds exactly [numParticles] particles (none when the count is
    not positive). *)
Theorem reachable_particle_count (b0 : AABB F) (s : Simulation) :
  DRAW_PARTICLES_AS_SPHERES = false ->
  reachable b0 s ->
  List.length (particles s) = Z.to_nat (numParticles s).
Proof.
  intros Hd. induction 1 as [cl g n p | cl g n d c p | c s _ IH].
  - unfold construct. rewrite !exec_bind. apply initialize_particle_count.
  - unfold constructWithGrid. apply initialize_particle_count.
  - apply call_particle_count; assumption.
Qed.

End ParticleCount.

(** ** Further runs of the sample configuration *)

Lemma sampleSim_countersInRange : countersInRange sampleSim.
Proof.
  split; [apply sampleSim_frameNumber_range
         | apply sampleSim_animFrameNumber_range].
Qed.

Lemma reachable_inSync_witness :
  @DRAW_PARTICLES_AS_SPHERES R SampleEnv = false /\
  reachable sampleBounds sampleSim /\ inSync sampleSim.
Proof.
  split; [reflexivity |]. split; [exact sampleSim_reachable |].
  apply reachable_inSync with (b0 := sampleBounds);
    [reflexivity | exact sampleSim_reachable].
Defined.

Lemma handleCollisions_rebinds F (FO : FloatOps F) (E : Env F)
    (s : Simulation) :
  In (SetArg "resolveCollisions" 3 (ArgVec3 (getMaxExtent (bounds s))))
     (issued step s ++ issued handleCollisions s)%list.
Proof.
  apply in_or_app. right. rewrite handleCollisions_issued.
  right. left. reflexivity.
Qed.

Lemma rebinding_matches_setup_witness :
  In (SetArg "resolveCollisions" 3
        (ArgVec3 (getMaxExtent (bounds sampleSim))))
     (issued step sampleSim ++ issued handleCollisions sampleSim)%list /\
  boundArg "resolveCollisions" 3 (issued (setupKernels true) sampleSim)
  = Some (ArgVec3 (getMaxExtent (bounds sampleSim))).
Proof.
  split; [apply handleCollisions_rebinds |].
  apply rebinding_matches_setup, handleCollisions_rebinds.
Defined.

Lemma steps_counters_witness :
  countersInRange sampleSim /\
  frameNumber (exec (times 3 step) sampleSim) = 3%Z /\
  animFrameNumber (exec (times 3 step) sampleSim) = 0%Z /\
  bounds (exec (times 3 step) sampleSim) = sampleBounds.
Proof.
  split; [exact sampleSim_countersInRange |].
  destruct (@steps_counters R RealOps SampleEnv 3%N sampleSim
              sampleSim_countersInRange) as [Hf [_ Hoff]].
  assert (Hb : animBounds sampleSim = false).
  { unfold sampleSim. apply constructWithGrid_animBounds. }
  destruct (Hoff Hb) as [Ha Hbs].
  rewrite Hf, Ha, Hbs, sampleSim_frameNumber, sampleSim_animFrameNumber.
  split; [reflexivity |]. split; [reflexivity |].
  unfold sampleSim. apply constructWithGrid_bounds.
Defined.

Lemma bothSidesSim_waveValue :
  waveValue bothSidesSim = Some (sineValue bothSidesSim).
Proof.
  unfold waveValue.
  replace (animType bothSidesSim) with SINE_WAVE; [reflexivity |].
  symmetry. unfold bothSidesSim. rewrite preserved by frame.
  exact sampleSim_animType.
Qed.

Lemma bothSidesSim_animPeriod : animPeriod bothSidesSim <> 0%R.
Proof.
  unfold bothSidesSim. rewrite preserved by frame.
  rewrite sampleSim_animPeriod. lra.
Qed.

Lemma wave_is_symmetric_witness :
  waveValue bothSidesSim = Some (sineValue bothSidesSim) /\
  animPeriod bothSidesSim <> 0%R /\
  boundsMaxX (exec stepBoundsAnimation
                (exec (setBounds raisedBounds) bothSidesSim))
  = boundsMaxX (exec stepBoundsAnimation bothSidesSim) /\
  (boundsMinX (exec stepBoundsAnimation bothSidesSim)
   + boundsMaxX (exec stepBoundsAnimation bothSidesSim))%R
  = (origMinX bothSidesSim + origMaxX bothSidesSim)%R.
Proof.
  split; [exact bothSidesSim_waveValue |].
  split; [exact bothSidesSim_animPeriod |].
  destruct (@wave_is_symmetric SampleEnv bothSidesSim
              (sineValue bothSidesSim) bothSidesSim_waveValue
              bothSidesSim_animPeriod) as [Hmax [Hset [Hboth _]]].
  split; [rewrite Hset, Hmax; reflexivity |].
  assert (Hb : animBothSides bothSidesSim = true) by reflexivity.
  exact (proj2 (Hboth Hb)).
Defined.

Lemma sine_wave_bounded_witness :
  animType sampleSim = SINE_WAVE /\
  (Rabs (maxXOffset sampleSim) <= 10)%R.
Proof.
  split; [exact sampleSim_animType |].
  pose proof (proj1 (@sine_wave_bounded SampleEnv sampleSim
                       sampleSim_animType)) as H.
  rewrite sampleSim_animAmp in H.
  rewrite (Rabs_pos_eq 10) in H by lra. exact H.
Defined.

Lemma first_frame_after_resetBounds_witness :
  animType sampleSim <> COMPRESS /\ animPeriod sampleSim <> 0%R /\
  bounds (exec stepBoundsAnimation (exec resetBounds sampleSim))
  = sampleBounds.
Proof.
  assert (H : animType sampleSim <> COMPRESS).
  { rewrite sampleSim_animType. discriminate. }
  assert (Hp : animPeriod sampleSim <> 0%R).
  { rewrite sampleSim_animPeriod. lra. }
  split; [exact H |]. split; [exact Hp |].
  rewrite (proj1 (@first_frame_after_resetBounds SampleEnv sampleSim H Hp)).
  unfold sampleSim. apply constructWithGrid_originalBounds.
Defined.

Lemma compressSim_limitMaxX : limitMaxX compressSim = 201%R.
Proof.
  rewrite limitMaxX_unfold. unfold origMaxX, origMinX.
  rewrite compressSim_originalBounds. cbn. lra.
Qed.

Lemma compressSim_boundsMaxX : boundsMaxX compressSim = 300%R.
Proof. unfold boundsMaxX. rewrite compressSim_bounds. reflexivity. Qed.

Lemma compress_stops_witness :
  animType compressSim = COMPRESS /\
  (boundsMaxX (exec (times 400 stepBoundsAnimation) compressSim) < 201)%R.
Proof.
  split; [exact compressSim_animType |].
  destruct (@compress_stops SampleEnv compressSim 400%N compressSim_animType)
    as [_ [H _]].
  rewrite compressSim_limitMaxX, compressSim_boundsMaxX in H.
  apply H. cbn. lra.
Defined.

Lemma SampleEnv_ofRandomInRange : @ofRandomInRange SampleEnv.
Proof. intros lo hi g H. cbn. lra. Qed.

Lemma initial_positions_in_range_witness :
  @ofRandomInRange SampleEnv /\
  Forall (fun p : Particle R =>
            (1 <= vx (pos p) <= 299)%R /\ (1 <= vz (pos p) <= 99)%R /\
            (1 <= vy (pos p) <= 99 / 4)%R)
    (particles (exec initializeBuffers sampleSim)).
Proof.
  split; [exact SampleEnv_ofRandomInRange |].
  assert (Hb : bounds sampleSim = sampleBounds).
  { unfold sampleSim. apply constructWithGrid_bounds. }
  assert (Hq : parameters sampleSim = 1%R).
  { unfold sampleSim. apply constructWithGrid_parameters. }
  pose proof (@initial_positions_in_range SampleEnv sampleSim
                SampleEnv_ofRandomInRange) as H.
  cbv zeta in H. rewrite Hb, Hq in H.
  cbn [getMinExtent getMaxExtent sampleBounds minV maxV vx vy vz
       particleRadius SampleEnv] in H.
  assert (H0 : (0 <= 1)%R) by lra.
  assert (Hx : (0 + 1 <= 300 - 1)%R) by lra.
  assert (Hz : (0 + 1 <= 100 - 1)%R) by lra.
  eapply Forall_impl; [| exact (H H0 Hx Hz)].
  intros p [[Px1 Px] [[Pz1 Pz] Py]]. cbv beta in *.
  assert (Hy : (0 + 1 <= 1 / 4 * (100 - 1))%R) by lra.
  specialize (Py Hy). lra.
Defined.

Lemma Rceil_unique (x : R) (z : Z) :
  (IZR z - 1 < x <= IZR z)%R -> Rceil x = z.
Proof.
  intros H. unfold Rceil.
  rewrite (@Int_part_unique (- x) (- z)%Z); [lia |].
  rewrite opp_IZR. lra.
Qed.

Lemma construct_ideal_grid_witness :
  (0 < @particleRadius R SampleEnv 1)%R /\
  (fitsInt 75 /\ fitsInt 25 /\ fitsInt (75 * 25) /\
   fitsInt (75 * 25 * 25)) /\
  cellsPerAxis (@construct R RealOps SampleEnv [] O sampleBounds 8 1%R)
  = mkVec3 75%R 25%R 25%R /\
  numCells (@construct R RealOps SampleEnv [] O sampleBounds 8 1%R)
  = 46875%Z.
Proof.
  assert (Hr : (0 < @particleRadius R SampleEnv 1)%R) by (cbn; lra).
  assert (Hi : forall z : Z, (- 100 <= z <= 100000)%Z -> fitsInt z).
  { intros z Hz. unfold fitsInt, INT_MIN, INT_MAX. lia. }
  split; [exact Hr |].
  split; [repeat split; discriminate |].
  pose proof (@construct_ideal_grid SampleEnv [] O sampleBounds 8%Z 1%R Hr
                eq_refl eq_refl eq_refl) as H.
  cbv zeta in H.
  remember (@construct R RealOps SampleEnv [] O sampleBounds 8 1%R) as c.
  cbn [getMinExtent getMaxExtent sampleBounds minV maxV vx vy vz
       particleRadius SampleEnv PARTICLES_PER_CELL_X PARTICLES_PER_CELL_Y
       PARTICLES_PER_CELL_Z] in H.
  rewrite (@Rceil_unique ((300 - 0) / 1 / 4) 75) in H by lra.
  rewrite (@Rceil_unique ((100 - 0) / 1 / 4) 25) in H by lra.
  destruct H as [Hc [Hn _]]; try (apply Hi; lia).
  split; [exact Hc | exact Hn].
Defined.

Lemma reachable_particle_count_witness :
  @DRAW_PARTICLES_AS_SPHERES R SampleEnv = false /\
  reachable sampleBounds sampleSim /\
  List.length (particles sampleSim) = 8%nat.
Proof.
  split; [reflexivity |]. split; [exact sampleSim_reachable |].
  rewrite (@reachable_particle_count R RealOps SampleEnv sampleBounds
             sampleSim eq_refl sampleSim_reachable).
  unfold sampleSim. rewrite constructWithGrid_numParticles. reflexivity.
Defined.
